(** * file-search-ez: a shallow embedding of the chat client

    The repository is a React client for a hosted document-search API.
    This development embeds the parts of it that carry behaviour:

    - [ProgressBar.tsx]: the guarded percentage of the fill bar;
    - [ChatInterface.tsx]: the submit handler, the enabling of the form
      controls, the rendering of grounding chunks as source buttons;
    - the upload polling loop quoted in the README ("Async Document
      Processing");
    - the session-level behaviour of [App.tsx] and
      [services/geminiService.ts].  The component sources do not include
      these two files; what is needed of them is modelled from the
      specification, and each such definition says so.

    JavaScript values are modelled as the code has them: a [number] is an
    IEEE 754 binary64 ([float]), a [string] is a sequence of UTF-16 code
    units, an optional field is an [option]. *)

From Stdlib Require Import Floats ZArith NArith List Sorted Lia.
From stdpp Require Import base relations list.
From Stdlib Require Ascii String.

(** ** JavaScript strings *)

Module Js.

(** A string is a sequence of UTF-16 code units. *)
Definition JsString := list N.

(** ECMAScript [WhiteSpace] and [LineTerminator] code points, the ones
    [String.prototype.trim] strips. *)
Definition isWhiteSpace (c : N) : bool :=
  ((9 <=? c) && (c <=? 13)          (* TAB, LF, VT, FF, CR *)
   || (c =? 32)                     (* SPACE *)
   || (c =? 160)                    (* NO-BREAK SPACE *)
   || (c =? 5760)                   (* U+1680 *)
   || (8192 <=? c) && (c <=? 8202)  (* U+2000 .. U+200A *)
   || (c =? 8232) || (c =? 8233)    (* LINE / PARAGRAPH SEPARATOR *)
   || (c =? 8239)                   (* U+202F *)
   || (c =? 8287)                   (* U+205F *)
   || (c =? 12288)                  (* U+3000 *)
   || (c =? 65279))%N.              (* U+FEFF *)

Fixpoint trimStart (s : JsString) : JsString :=
  match s with
  | [] => []
  | c :: rest => if isWhiteSpace c then trimStart rest else s
  end.

Definition trimEnd (s : JsString) : JsString := rev (trimStart (rev s)).

(** [s.trim()] *)
Definition trim (s : JsString) : JsString := trimEnd (trimStart s).

(** [ToBoolean] on a string: only the empty string is falsy. *)
Definition truthy (s : JsString) : bool :=
  match s with [] => false | _ :: _ => true end.

End Js.

(** ** [types.ts], as documented in the README ("Data Types") *)

Module Types.
Import Js.

Record RetrievedContext := { text : option JsString }.

Record GroundingChunk := { retrievedContext : option RetrievedContext }.

Inductive Role := user | model.

Record Part := { partText : JsString }.

Record ChatMessage := {
  role : Role;
  parts : list Part;
  groundingChunks : option (list GroundingChunk)
}.

End Types.

(** ** [components/ProgressBar.tsx] *)

Module ProgressBar.
Open Scope float_scope.

(** [const percentage = total > 0 ? (progress / total) * 100 : 0;] *)
Definition percentage (progress total : float) : float :=
  if 0 <? total then (progress / total) * 100 else 0.

(** What the fill bar would get without the guard. *)
Definition unguarded (progress total : float) : float :=
  (progress / total) * 100.

End ProgressBar.

(** ** [components/ChatInterface.tsx]: local state and the submit handler *)

Module ChatInterface.
Import Js Types.

(** The component's [useState] cells. *)
Record State := {
  query : JsString;
  currentSuggestion : JsString;
  modalContent : option JsString
}.

(** Calls made on the callbacks received as props. *)
Inductive Callback :=
| SendMessage (message : JsString)   (* [onSendMessage(message)] *)
| NewChat.                           (* [onNewChat()] *)

Definition setQuery (v : JsString) (st : State) : State :=
  {| query := v;
     currentSuggestion := currentSuggestion st;
     modalContent := modalContent st |}.

Definition setCurrentSuggestion (v : JsString) (st : State) : State :=
  {| query := query st;
     currentSuggestion := v;
     modalContent := modalContent st |}.

Definition setModalContent (v : option JsString) (st : State) : State :=
  {| query := query st;
     currentSuggestion := currentSuggestion st;
     modalContent := v |}.

(** [[
    const handleSubmit = (e) => {
        e.preventDefault();
        if (query.trim()) { onSendMessage(query); setQuery(''); }
    };
    ]]
    The result is the next state and the callbacks invoked, in order. *)
Definition handleSubmit (st : State) : State * list Callback :=
  if truthy (trim (query st))
  then (setQuery [] st, [SendMessage (query st)])
  else (st, []).

(** [handleSourceClick(text)] and [closeModal()] *)
Definition handleSourceClick (t : JsString) (st : State) : State :=
  setModalContent (Some t) st.

Definition closeModal (st : State) : State := setModalContent None st.

(** *** Source buttons

    [[
    {message.groundingChunks.map((chunk, chunkIndex) => (
        chunk.retrievedContext?.text && (
            <motion.button key={chunkIndex}
                onClick={() => handleSourceClick(chunk.retrievedContext!.text!)}
                aria-label={`View source ${chunkIndex + 1}`}>
                Source {chunkIndex + 1}
            </motion.button>)))}
    ]] *)

Record SourceButton := {
  key : nat;               (* [key={chunkIndex}] *)
  sourceNumber : nat;      (* the number in the label and the aria-label *)
  onClickText : JsString   (* what [onClick] hands to [handleSourceClick] *)
}.

(** A child produced by the [map]: the falsy left operand of [&&]
    ([undefined] or the empty string, neither of which React displays),
    or the button. *)
Inductive Node :=
| Falsy (v : option JsString)
| Button (b : SourceButton).

(** [chunk.retrievedContext?.text] *)
Definition retrievedText (chunk : GroundingChunk) : option JsString :=
  match retrievedContext chunk with
  | Some rc => text rc
  | None => None
  end.

Definition renderChunk (chunkIndex : nat) (chunk : GroundingChunk) : Node :=
  match retrievedText chunk with
  | Some t =>
      if truthy t
      then Button {| key := chunkIndex;
                     sourceNumber := chunkIndex + 1;
                     onClickText := t |}
      else Falsy (Some t)
  | None => Falsy None
  end.

Definition renderChunks (chunks : list GroundingChunk) : list Node :=
  imap renderChunk chunks.

(** The children for the chunks at positions [k], [k + 1], ... *)
Definition nodesFrom (k : nat) (chunks : list GroundingChunk) : list Node :=
  imap (fun i => renderChunk (k + i)) chunks.

Definition nodeButton (n : Node) : option SourceButton :=
  match n with Button b => Some b | Falsy _ => None end.

(** The buttons that reach the page, in document order. *)
Definition buttons (nodes : list Node) : list SourceButton :=
  omap nodeButton nodes.

(** The "Sources:" block of one message, [None] when it is not rendered:
    [message.role === 'model' && message.groundingChunks &&
     message.groundingChunks.length > 0 && (...)].
    The message body is read by [bodyText]. *)
Definition renderSources (message : ChatMessage) : option (list Node) :=
  match role message, groundingChunks message with
  | model, Some chunks =>
      if 0 <? length chunks then Some (renderChunks chunks) else None
  | _, _ => None
  end.

(** The text a chunk offers for display, if any. *)
Definition displayableText (chunk : GroundingChunk) : option JsString :=
  match retrievedText chunk with
  | Some t => if truthy t then Some t else None
  | None => None
  end.

(** *** Props and form controls *)

Record Props := {
  documentName : JsString;
  history : list ChatMessage;
  isQueryLoading : bool;
  exampleQuestions : list JsString
}.

(** [<input ... disabled={isQueryLoading} />] *)
Definition inputDisabled (p : Props) : bool := isQueryLoading p.

(** [<motion.button type="submit" disabled={isQueryLoading || !query.trim()}>] *)
Definition sendDisabled (p : Props) (st : State) : bool :=
  isQueryLoading p || negb (truthy (trim (query st))).

(** [{!isQueryLoading && currentSuggestion && (<button ...>)}], the child
    handed to [<AnimatePresence mode="wait">] under
    [key={currentSuggestion}].  This is what the render asks for, not what
    is on the page: when the condition turns false or the key changes,
    [AnimatePresence] keeps the button it has and plays its exit
    ([exit={{ opacity: 0, y: 10 }}], 0.3 s), during which the button can
    still be clicked and acts with the suggestion it was rendered with. *)
Definition suggestionShown (p : Props) (st : State) : bool :=
  negb (isQueryLoading p) && truthy (currentSuggestion st).

(** [message.parts[0].text], read for the body of every message
    ([renderMarkdown(message.parts[0].text)]): [None] when the message has
    no first part, where the read throws a [TypeError]. *)
Definition bodyText (message : ChatMessage) : option JsString :=
  match parts message with
  | part :: _ => Some (partText part)
  | [] => None
  end.

(** The render goes through: [history.map] reads the body of every
    message.  When one of them throws, the render of the component throws
    and nothing of it is on the page. *)
Definition renders (p : Props) : bool :=
  forallb (fun message =>
             match bodyText message with Some _ => true | None => false end)
          (history p).

(** The button rendered for chunk [j] of message [i], if any. *)
Definition sourceButtonAt (p : Props) (i j : nat) : option SourceButton :=
  if renders p
  then
    message ← history p !! i;
    nodes ← renderSources message;
    node ← nodes !! j;
    nodeButton node
  else None.

(** What a user can do to the rendered component. *)
Inductive Event :=
| InputChange (v : JsString)     (* edit the text input: [onChange] *)
| PressEnter                     (* Enter in the text input *)
| ClickSend                      (* click the submit button *)
| ClickSuggestion (shown : JsString)
                                 (* click a "Try: ..." button, the one
                                    rendered for the suggestion [shown] *)
| ClickNewChat                   (* click "New Chat" *)
| ClickSource (i j : nat)        (* click "Source j+1" of message i *)
| CloseModal.

(** What the page offers once rendered.  A disabled control receives
    neither focus nor clicks; Enter submits a form through its default
    button, and only when that button is not disabled.  A suggestion
    button is rendered for a non-empty suggestion only; which of them are
    on the page (the current one, one on its way out) is for
    [AnimatePresence] to say and not a function of the props and the
    state, so a click on a button for any non-empty suggestion is
    admitted. *)
Definition offered (p : Props) (st : State) (e : Event) : bool :=
  match e with
  | InputChange _ => negb (inputDisabled p)
  | PressEnter => negb (inputDisabled p) && negb (sendDisabled p st)
  | ClickSend => negb (sendDisabled p st)
  | ClickSuggestion shown => truthy shown
  | ClickNewChat => true
  | ClickSource i j =>
      match sourceButtonAt p i j with Some _ => true | None => false end
  | CloseModal =>
      match modalContent st with Some _ => true | None => false end
  end.

(** Which events the browser delivers: those of a page that has
    rendered. *)
Definition enabled (p : Props) (st : State) (e : Event) : bool :=
  renders p && offered p st e.

(** The handler attached to each event.  The suggestion button's
    [onClick={() => setQuery(currentSuggestion)}] closes over the
    suggestion the button was rendered with. *)
Definition dispatch (p : Props) (e : Event) (st : State)
  : State * list Callback :=
  match e with
  | InputChange v => (setQuery v st, [])
  | PressEnter | ClickSend => handleSubmit st
  | ClickSuggestion shown => (setQuery shown st, [])
  | ClickNewChat => (st, [NewChat])
  | ClickSource i j =>
      match sourceButtonAt p i j with
      | Some b => (handleSourceClick (onClickText b) st, [])
      | None => (st, [])
      end
  | CloseModal => (closeModal st, [])
  end.

End ChatInterface.

(** ** [services/geminiService.ts]: the upload loop

    The README quotes the loop of [uploadToRagStore]:
    [[
    let op = await ai.fileSearchStores.uploadToFileSearchStore({...});
    while (!op.done) {
        await delay(3000);
        op = await ai.operations.get({ operation: op });
    }
    ]] *)

Module GeminiService.
Import Js.

(** The operation handle: the completion flag the loop tests, and the
    optional error payload of the specification's data model ("completion
    flag, optional error payload"). *)
Record Operation := {
  done : bool;
  error : option JsString
}.

(** How an awaited remote call settles. *)
Inductive Reply :=
| Resolved (op : Operation)
| Rejected (reason : JsString).

(** What the loop does, in order. *)
Inductive Effect :=
| Upload                 (* [uploadToFileSearchStore] *)
| Delay (ms : N)         (* [delay(ms)] *)
| GetOperation.          (* [ai.operations.get] *)

Inductive Outcome :=
| Returned               (* the loop was left with [op.done] set *)
| Threw (reason : JsString)
| StillPolling.          (* not done when the observed replies end *)

(** The [while] loop.  [replies] are the answers of the remote to the
    successive [operations.get] calls; the loop has no bound of its own,
    so a run is observed for as long as replies are given.  When they are
    used up with the handle not done, the loop has paused and sent the
    next request, which is the one left unanswered. *)
Fixpoint poll (replies : list Reply) (op : Operation)
  : list Effect * Outcome :=
  if done op then ([], Returned)
  else
    match replies with
    | [] => ([Delay 3000; GetOperation], StillPolling)
    | Rejected reason :: _ => ([Delay 3000; GetOperation], Threw reason)
    | Resolved op' :: rest =>
        let (effects, outcome) := poll rest op' in
        (Delay 3000 :: GetOperation :: effects, outcome)
    end.

Definition uploadToRagStore (submission : Reply) (replies : list Reply)
  : list Effect * Outcome :=
  match submission with
  | Rejected reason => ([Upload], Threw reason)
  | Resolved op =>
      let (effects, outcome) := poll replies op in
      (Upload :: effects, outcome)
  end.

(** The number of status requests in a run. *)
Definition isGet (e : Effect) : bool :=
  match e with GetOperation => true | _ => false end.

Definition polls (effects : list Effect) : nat :=
  length (List.filter isGet effects).

(** A reply that ends the loop: the flag is set, or the request failed. *)
Definition stops (r : Reply) : bool :=
  match r with
  | Resolved op => done op
  | Rejected _ => true
  end.

(** A reply in which the handle reports completion or an error, in the
    words of the specification: the flag, an error payload, or a failed
    request. *)
Definition reportsDoneOrError (r : Reply) : bool :=
  match r with
  | Resolved op =>
      done op || match error op with Some _ => true | None => false end
  | Rejected _ => true
  end.

(** The handles the remote sends.  In the data model an operation is
    "terminal (done or failed)" and a "terminal failure" is a handle that
    "reports an error payload": the payload comes with the flag set, never
    on an operation still running. *)
Definition wellFormed (op : Operation) : bool :=
  match error op with
  | Some _ => done op
  | None => true
  end.

Definition protocolReply (r : Reply) : bool :=
  match r with
  | Resolved op => wellFormed op
  | Rejected _ => true
  end.

(** One round of the loop. *)
Definition round : list Effect := [Delay 3000; GetOperation].

Fixpoint rounds (n : nat) : list Effect :=
  match n with
  | O => []
  | S k => round ++ rounds k
  end.

Definition outcomeOf (r : Reply) : Outcome :=
  match r with
  | Resolved _ => Returned
  | Rejected reason => Threw reason
  end.

End GeminiService.

(** ** A chat session: the component under its parent

    [ChatInterface] receives [history] and [isQueryLoading] from its parent
    and reports through [onSendMessage] and [onNewChat]. *)

Module ChatSession.
Import Js Types ChatInterface.

Record Session := {
  ui : State;
  title : JsString;
  transcript : list ChatMessage;
  suggestions : list JsString;
  inFlight : nat        (* queries sent and not yet settled *)
}.

(** Modelled from the spec: the props handed down by the parent
    ([App.tsx], not among the component sources).  [isQueryLoading] is set
    while a query is outstanding: "the interface disables new input while
    a query is outstanding". *)
Definition props (s : Session) : Props :=
  {| documentName := title s;
     history := transcript s;
     isQueryLoading := 0 <? inFlight s;
     exampleQuestions := suggestions s |}.

Definition withUi (st : State) (s : Session) : Session :=
  {| ui := st; title := title s; transcript := transcript s;
     suggestions := suggestions s; inFlight := inFlight s |}.

Definition userMessage (m : JsString) : ChatMessage :=
  {| role := user; parts := [ {| partText := m |} ];
     groundingChunks := None |}.

(** Modelled from the spec: what the parent does on a callback.  A
    question sent is a query issued, and its user message enters the
    transcript; "new chat" clears the transcript and cancels nothing ("no
    explicit cancellation of an in-flight poll or query"). *)
Definition deliver (s : Session) (c : Callback) : Session :=
  match c with
  | SendMessage m =>
      {| ui := ui s; title := title s;
         transcript := transcript s ++ [userMessage m];
         suggestions := suggestions s;
         inFlight := S (inFlight s) |}
  | NewChat =>
      {| ui := ui s; title := title s;
         transcript := [];
         suggestions := suggestions s;
         inFlight := inFlight s |}
  end.

(** Modelled from the spec: a query in flight settles, with an answer or
    with an error; [appended] is what the parent adds to the transcript
    then. *)
Definition settle (appended : list ChatMessage) (s : Session) : Session :=
  {| ui := ui s; title := title s;
     transcript := transcript s ++ appended;
     suggestions := suggestions s;
     inFlight := pred (inFlight s) |}.

Inductive step : Session -> Session -> Prop :=
| step_event (s : Session) (e : Event) :
    enabled (props s) (ui s) e = true ->
    step s (foldl deliver
                  (withUi (fst (dispatch (props s) e (ui s))) s)
                  (snd (dispatch (props s) e (ui s))))
| step_settle (s : Session) (appended : list ChatMessage) :
    0 < inFlight s ->
    step s (settle appended s)
| step_rotate (s : Session) (q : JsString) :
    (* the effect on [exampleQuestions]: one of them is shown, the next one
       every 5 seconds; the empty string when there is none *)
    In q (suggestions s) \/ (suggestions s = [] /\ q = []) ->
    step s (withUi (setCurrentSuggestion q (ui s)) s).

Definition sends (calls : list Callback) : nat :=
  length (List.filter
            (fun c => match c with SendMessage _ => true | NewChat => false end)
            calls).

End ChatSession.

(** ** The session orchestrator ([App.tsx]) and the suggestion generator *)

Module App.
Import Js Types GeminiService.

Record File := {
  fileName : JsString;
  fileBytes : list N
}.

Inductive UploadEvent :=
| Progress (currentIndex totalFiles : nat) (currentFileName : JsString)
| Service (index : nat) (e : Effect).   (* an effect of the upload of file [index] *)

(** What the orchestrator does with the files left when one upload fails:
    "may continue processing remaining files or abort the whole batch --
    policy choice". *)
Inductive FailurePolicy :=
| ContinueBatch
| AbortBatch.

Inductive BatchOutcome :=
| Finished (failed : list nat)     (* all files processed; the ones that failed *)
| Aborted (index : nat) (reason : JsString)
| InProgress (index : nat).        (* still polling for file [index] *)

Definition noteFailure (index : nat) (o : BatchOutcome) : BatchOutcome :=
  match o with
  | Finished failed => Finished (index :: failed)
  | _ => o
  end.

(** Modelled from the spec: the events of one file, the progress report
    made as the file starts and then what its upload does. *)
Definition fileEvents (index total : nat) (file : File)
    (effects : list Effect) : list UploadEvent :=
  Progress (index + 1) total (fileName file) :: map (Service index) effects.

(** Modelled from the spec: the upload of the selected files, the loop of
    [App.tsx] which is not among the sources.  "Multiple files are
    processed sequentially, not concurrently, in the order selected by the
    user; progress is reported as (currentIndex, totalFiles,
    currentFileName) after each file starts".  [remote i] is how the remote
    answers the submission of file [i] and the status requests that
    follow. *)
Fixpoint uploadFrom (policy : FailurePolicy) (index total : nat)
    (files : list File) (remote : nat -> Reply * list Reply)
  : list UploadEvent * BatchOutcome :=
  match files with
  | [] => ([], Finished [])
  | file :: rest =>
      let (effects, outcome) :=
        uploadToRagStore (fst (remote index)) (snd (remote index)) in
      let events := fileEvents index total file effects in
      match outcome, policy with
      | Returned, _ =>
          let (events', outcome') :=
            uploadFrom policy (S index) total rest remote in
          (events ++ events', outcome')
      | Threw _, ContinueBatch =>
          let (events', outcome') :=
            uploadFrom policy (S index) total rest remote in
          (events ++ events', noteFailure index outcome')
      | Threw reason, AbortBatch => (events, Aborted index reason)
      | StillPolling, _ => (events, InProgress index)
      end
  end.

Definition uploadFiles (policy : FailurePolicy) (files : list File)
    (remote : nat -> Reply * list Reply) : list UploadEvent * BatchOutcome :=
  uploadFrom policy 0 (length files) files remote.

(** The orchestrator goes on to the next file after this outcome. *)
Definition proceeds (policy : FailurePolicy) (outcome : Outcome) : bool :=
  match outcome, policy with
  | Returned, _ => true
  | Threw _, ContinueBatch => true
  | _, _ => false
  end.

Definition isFinished (o : BatchOutcome) : bool :=
  match o with Finished _ => true | _ => false end.

Definition isUpload (e : Effect) : bool :=
  match e with Upload => true | _ => false end.

(** The files submitted, by index, in the order of submission. *)
Fixpoint submissions (events : list UploadEvent) : list nat :=
  match events with
  | [] => []
  | Service i Upload :: rest => i :: submissions rest
  | _ :: rest => submissions rest
  end.

Fixpoint progressReports (events : list UploadEvent)
  : list (nat * nat * JsString) :=
  match events with
  | [] => []
  | Progress c t n :: rest => (c, t, n) :: progressReports rest
  | _ :: rest => progressReports rest
  end.

(** The next file to submit when [current] was the last one. *)
Definition nextIndex (current : option nat) : nat :=
  match current with None => 0 | Some c => S c end.

(** One upload at a time: every submission is for the next file, every
    pause and status request belongs to the file submitted last, and a
    progress report names the file about to be submitted. *)
Fixpoint sequentialFrom (current : option nat) (events : list UploadEvent)
  : bool :=
  match events with
  | [] => true
  | Progress c _ _ :: rest =>
      (c =? S (nextIndex current)) && sequentialFrom current rest
  | Service i Upload :: rest =>
      (i =? nextIndex current) && sequentialFrom (Some i) rest
  | Service i _ :: rest =>
      match current with
      | Some c => (i =? c) && sequentialFrom current rest
      | None => false
      end
  end.

(** *** The session state machine *)

Inductive Status :=
| NoKey | KeySelected | FilesPending | Uploading | Ready | Querying
| UploadFailed.

Definition StoreId := nat.

Inductive RemoteCall :=
| CreateStore (assigned : StoreId)
| DeleteStore (store : StoreId).

Record Session := {
  status : Status;
  activeStore : option StoreId;
  transcript : list ChatMessage;
  files : list File
}.

Definition initial : Session :=
  {| status := NoKey; activeStore := None; transcript := []; files := [] |}.

(** Modelled from the spec: "new chat" ([App.tsx] is not among the
    sources).  "An explicit NewChat transition ... back to FilesPending
    (deletes the current store as a side effect before transitioning)",
    which "clears the transcript"; the files have to be added again. *)
Definition newChat (s : Session) : Session * list RemoteCall :=
  ({| status := FilesPending; activeStore := None;
      transcript := []; files := [] |},
   match activeStore s with
   | Some store => [DeleteStore store]
   | None => []
   end).

Inductive Action :=
| SelectKey
| AddFiles (added : list File)
| ConfirmUpload (assigned : StoreId)
| UploadsSettled (succeeded : bool)
| Ask (question : ChatMessage)
| Answered (appended : list ChatMessage)
| ClickNewChat.

Definition withStatus (st : Status) (s : Session) : Session :=
  {| status := st; activeStore := activeStore s;
     transcript := transcript s; files := files s |}.

Definition withTranscript (t : list ChatMessage) (s : Session) : Session :=
  {| status := status s; activeStore := activeStore s;
     transcript := t; files := files s |}.

(** Modelled from the spec: the transitions of its section 4.5.  An
    action that the current state does not offer changes nothing.  The
    upload is confirmed with at least one file selected (the welcome
    screen shows "Upload and Chat" only then) and starts by creating the
    store.  The upload error "still permits retry (re-confirm upload) or
    reset (new chat)": the retry is the confirmation again, with a store
    of its own, and what the failed batch had uploaded is left where it
    is ("those remain in the store").  "New Chat" is offered wherever the
    chat or the upload error is shown, also while a query is loading (its
    button is never disabled). *)
Definition act (a : Action) (s : Session) : Session * list RemoteCall :=
  match a, status s with
  | SelectKey, NoKey =>
      (withStatus (if 0 <? length (files s) then FilesPending
                   else KeySelected) s, [])
  | AddFiles added, NoKey =>
      ({| status := NoKey; activeStore := activeStore s;
          transcript := transcript s; files := files s ++ added |}, [])
  | AddFiles added, (KeySelected | FilesPending) =>
      ({| status := if 0 <? length (files s ++ added) then FilesPending
                    else KeySelected;
          activeStore := activeStore s;
          transcript := transcript s; files := files s ++ added |}, [])
  | ConfirmUpload assigned, (FilesPending | UploadFailed) =>
      if 0 <? length (files s)
      then ({| status := Uploading; activeStore := Some assigned;
               transcript := transcript s; files := files s |},
            [CreateStore assigned])
      else (s, [])
  | UploadsSettled succeeded, Uploading =>
      (withStatus (if succeeded then Ready else UploadFailed) s, [])
  | Ask question, Ready =>
      (withStatus Querying (withTranscript (transcript s ++ [question]) s), [])
  | Answered appended, Querying =>
      (withStatus Ready (withTranscript (transcript s ++ appended) s), [])
  | ClickNewChat, (Ready | Querying | UploadFailed | FilesPending) =>
      newChat s
  | _, _ => (s, [])
  end.

(** The states in which no store belongs to the session. *)
Definition storeless (st : Status) : bool :=
  match st with
  | NoKey | KeySelected | FilesPending => true
  | _ => false
  end.

(** Before a key and files are there, and between chats, the session holds
    no store. *)
Definition storeFree (s : Session) : Prop :=
  storeless (status s) = true -> activeStore s = None.

(** A run: the session after the actions, and the remote calls made. *)
Fixpoint run (actions : list Action) (s : Session)
  : Session * list RemoteCall :=
  match actions with
  | [] => (s, [])
  | a :: rest =>
      let (s1, calls1) := act a s in
      let (s2, calls2) := run rest s1 in
      (s2, calls1 ++ calls2)
  end.

(** The states in which "New Chat" is offered. *)
Definition offersNewChat (st : Status) : bool :=
  match st with
  | Ready | Querying | UploadFailed | FilesPending => true
  | _ => false
  end.

(** The session a new chat leaves. *)
Definition cleared : Session :=
  {| status := FilesPending; activeStore := None;
     transcript := []; files := [] |}.

(** Reading a trace of remote calls with [current] the store the session
    refers to: a store created becomes the one referred to, and a store
    deleted is the one referred to, which leaves none.  [None] when the
    trace deletes any other store, or deletes with none referred to. *)
Fixpoint referenceAfter (current : option StoreId) (calls : list RemoteCall)
  : option (option StoreId) :=
  match calls with
  | [] => Some current
  | CreateStore assigned :: rest => referenceAfter (Some assigned) rest
  | DeleteStore store :: rest =>
      match current with
      | Some c => if store =? c then referenceAfter None rest else None
      | None => None
      end
  end.

(** *** Example questions *)

Inductive Result (A : Type) :=
| Ok (a : A)
| Err (reason : JsString).
Arguments Ok {A} a.
Arguments Err {A} reason.

(** The lines of a text, split at LINE FEED. *)
Fixpoint splitLines (s : JsString) : list JsString :=
  match s with
  | [] => [[]]
  | c :: rest =>
      if (c =? 10)%N then [] :: splitLines rest
      else match splitLines rest with
           | line :: lines => (c :: line) :: lines
           | [] => [[c]]
           end
  end.

(** Modelled from the spec: [generateExampleQuestions] of
    [services/geminiService.ts], which is not among the sources.  It
    "issues one query", expects "a delimited (e.g., newline- or
    numbered-list) answer", "parses that format into discrete question
    strings, discarding empty or malformed lines", and "on any failure
    (parse failure, remote error) returns an empty sequence rather than
    propagating an error". *)
Definition parseQuestions (answer : JsString) : Result (list JsString) :=
  match List.filter truthy (map trim (splitLines answer)) with
  | [] => Err [112; 97; 114; 115; 101]%N     (* "parse" *)
  | questions => Ok questions
  end.

(** Modelled from the spec: the one query and the parse of its answer,
    either of which may fail. *)
Definition requestQuestions (reply : Result JsString)
  : Result (list JsString) :=
  match reply with
  | Ok answer => parseQuestions answer
  | Err reason => Err reason
  end.

(** Modelled from the spec: "best-effort: on any failure ... returns an
    empty sequence rather than propagating an error". *)
Definition generateExampleQuestions (reply : Result JsString)
  : list JsString :=
  match requestQuestions reply with
  | Ok questions => questions
  | Err _ => []
  end.

End App.

(** ** String helpers and the literals of the components *)

Module JsLib.
Import Js.
Import Stdlib.Strings.String.

(** An ASCII literal as a sequence of code units. *)
Definition str (s : string) : JsString :=
  map Ascii.N_of_ascii (list_ascii_of_string s).

(** [ToBoolean] on [string | null]: [null] and the empty string are
    falsy. *)
Definition truthyOpt (o : option JsString) : bool :=
  match o with Some s => truthy s | None => false end.

Fixpoint startsWith (needle s : JsString) : bool :=
  match needle, s with
  | [], _ => true
  | _ :: _, [] => false
  | a :: needle', b :: s' => (a =? b)%N && startsWith needle' s'
  end.

(** [s.includes(needle)] *)
Fixpoint includes (needle s : JsString) : bool :=
  startsWith needle s
  || match s with
     | [] => false
     | _ :: rest => includes needle rest
     end.

Definition failedToFetch : JsString := str "Failed to fetch".

Definition corsHint : JsString := str ". This may be a CORS issue.".

Definition couldNotFetch : JsString :=
  str "Could not fetch the sample document. Please try uploading a local file instead.".

End JsLib.

(** ** [WelcomeScreen] (second component of [components/ChatInterface.tsx]) *)

Module WelcomeScreen.
Import Js JsLib.
Import Stdlib.Strings.String.

(** A DOM [File]: its name, its MIME type and its bytes. *)
Record File := {
  name : JsString;
  mimeType : JsString;
  content : list N
}.

Record SampleDocument := {
  docName : JsString;
  docUrl : JsString;
  docFileName : JsString
}.

Definition hyundaiManual : SampleDocument :=
  {| docName := str "Hyundai i10 Manual";
     docUrl := str "https://www.hyundai.com/content/dam/hyundai/in/en/data/connect-to-service/owners-manual/2025/i20&i20nlineFromOct2023-Present.pdf";
     docFileName := str "hyundai-i10-manual.pdf" |}.

Definition lgWasherManual : SampleDocument :=
  {| docName := str "LG Washer Manual";
     docUrl := str "https://www.lg.com/us/support/products/documents/WM2077CW.pdf";
     docFileName := str "lg-washer-manual.pdf" |}.

Definition sampleDocuments : list SampleDocument :=
  [hyundaiManual; lgWasherManual].

(** The selection ([files], owned by the parent and updated through
    [setFiles]) and the component's own [useState] cells. *)
Record State := {
  files : list File;
  isDragging : bool;
  loadingSample : option JsString
}.

Definition setFiles (v : list File) (st : State) : State :=
  {| files := v; isDragging := isDragging st;
     loadingSample := loadingSample st |}.

Definition setIsDragging (v : bool) (st : State) : State :=
  {| files := files st; isDragging := v;
     loadingSample := loadingSample st |}.

Definition setLoadingSample (v : option JsString) (st : State) : State :=
  {| files := files st; isDragging := isDragging st;
     loadingSample := v |}.

(** [if (event.target.files) setFiles(prev => [...prev, ...Array.from(files)])] *)
Definition handleFileChange (picked : option (list File)) (st : State) : State :=
  match picked with
  | Some added => setFiles (files st ++ added) st
  | None => st
  end.

Definition handleDrop (dropped : option (list File)) (st : State) : State :=
  let st1 := setIsDragging false st in
  match dropped with
  | Some added => setFiles (files st1 ++ added) st1
  | None => st1
  end.

Definition handleDragOver (st : State) : State :=
  if negb (isDragging st) then setIsDragging true st else st.

Definition handleDragLeave (st : State) : State := setIsDragging false st.

(** [array.filter((x, index) => keep(x, index))], indices counted from
    [from]. *)
Fixpoint filterIndexed {A : Type} (keep : A -> nat -> bool) (from : nat)
    (l : list A) : list A :=
  match l with
  | [] => []
  | x :: rest =>
      if keep x from then x :: filterIndexed keep (S from) rest
      else filterIndexed keep (S from) rest
  end.

(** [setFiles(prevFiles => prevFiles.filter((_, index) => index !== indexToRemove))] *)
Definition handleRemoveFile (indexToRemove : nat) (st : State) : State :=
  setFiles (filterIndexed (fun _ index => negb (index =? indexToRemove)) 0
              (files st)) st.

(** A value caught by [catch]: an [Error] with its message, or anything
    else. *)
Inductive Thrown :=
| ErrorObject (message : JsString)
| OtherValue.

(** How [response.blob()] settles. *)
Inductive BlobOutcome :=
| BlobResolved (blobType : JsString) (blobContent : list N)
| BlobRejected (e : Thrown).

(** How [fetch(url)] settles, with what the response then gives. *)
Inductive FetchOutcome :=
| FetchRejected (e : Thrown)
| FetchResponse (ok : bool) (statusText : JsString) (blob : BlobOutcome).

Inductive Output :=
| ConsoleError
| Alert (message : JsString).

(** [`Failed to fetch ${name}: ${response.statusText}. This may be a CORS issue.`] *)
Definition fetchError (sample statusText : JsString) : JsString :=
  failedToFetch ++ str " " ++ sample ++ str ": " ++ statusText ++ corsHint.

(** The [try] block of [handleSelectSample]: the file built, or what was
    thrown. *)
Definition sampleTry (sample fileName : JsString) (outcome : FetchOutcome)
  : Thrown + File :=
  match outcome with
  | FetchRejected e => inl e
  | FetchResponse false statusText _ =>
      inl (ErrorObject (fetchError sample statusText))
  | FetchResponse true _ (BlobRejected e) => inl e
  | FetchResponse true _ (BlobResolved blobType blobContent) =>
      inr {| name := fileName; mimeType := blobType;
             content := blobContent |}
  end.

(** The [catch] block: [console.error], and an [alert] when
    [error instanceof Error && error.message.includes('Failed to fetch')]. *)
Definition sampleCatch (e : Thrown) : list Output :=
  ConsoleError
  :: match e with
     | ErrorObject message =>
         if includes failedToFetch message then [Alert couldNotFetch] else []
     | OtherValue => []
     end.

(** [handleSelectSample] up to its first [await]: [None] when the guard
    [if (loadingSample) return;] leaves at once. *)
Definition selectSampleStart (sample : JsString) (st : State) : option State :=
  if truthyOpt (loadingSample st) then None
  else Some (setLoadingSample (Some sample) st).

(** [handleSelectSample] from the settling of the fetch on: [try],
    [catch], [finally]. *)
Definition selectSampleSettle (sample fileName : JsString)
    (outcome : FetchOutcome) (st : State) : State * list Output :=
  match sampleTry sample fileName outcome with
  | inr file =>
      (setLoadingSample None (setFiles (files st ++ [file]) st), [])
  | inl e => (setLoadingSample None st, sampleCatch e)
  end.

(** The whole call, when nothing else happens while the fetch is pending. *)
Definition handleSelectSample (sample fileName : JsString)
    (outcome : FetchOutcome) (st : State) : State * list Output :=
  match selectSampleStart sample st with
  | Some st1 => selectSampleSettle sample fileName outcome st1
  | None => (st, [])
  end.

(** The screen together with the number of sample downloads started and
    not yet settled. *)
Record Screen := {
  state : State;
  downloads : nat
}.

Inductive step : Screen -> Screen -> Prop :=
| step_pick (s : Screen) (picked : option (list File)) :
    step s {| state := handleFileChange picked (state s);
              downloads := downloads s |}
| step_drop (s : Screen) (dropped : option (list File)) :
    step s {| state := handleDrop dropped (state s);
              downloads := downloads s |}
| step_drag_over (s : Screen) :
    step s {| state := handleDragOver (state s); downloads := downloads s |}
| step_drag_leave (s : Screen) :
    step s {| state := handleDragLeave (state s); downloads := downloads s |}
| step_remove (s : Screen) (i : nat) :
    step s {| state := handleRemoveFile i (state s);
              downloads := downloads s |}
| step_sample_click (s : Screen) (doc : SampleDocument) :
    In doc sampleDocuments ->
    step s match selectSampleStart (docName doc) (state s) with
           | Some st1 => {| state := st1; downloads := S (downloads s) |}
           | None => s
           end
| step_sample_settled (s : Screen) (doc : SampleDocument)
    (outcome : FetchOutcome) :
    0 < downloads s ->
    step s {| state := fst (selectSampleSettle (docName doc) (docFileName doc)
                              outcome (state s));
              downloads := pred (downloads s) |}.

(** What the steps keep: at most one download, and the marker set while
    it runs. *)
Definition oneDownload (s : Screen) : Prop :=
  downloads s <= 1
  /\ (0 < downloads s -> truthyOpt (loadingSample (state s)) = true).

End WelcomeScreen.

(** ** [ChatInterface]: the rotation of the example questions

    [[
    useEffect(() => {
        if (exampleQuestions.length === 0) { setCurrentSuggestion(''); return; }
        setCurrentSuggestion(exampleQuestions[0]);
        let suggestionIndex = 0;
        const intervalId = setInterval(() => {
            suggestionIndex = (suggestionIndex + 1) % exampleQuestions.length;
            setCurrentSuggestion(exampleQuestions[suggestionIndex]);
        }, 5000);
        return () => clearInterval(intervalId);
    }, [exampleQuestions]);
    ]] *)

Module SuggestionEffect.
Import Js.

Record Rotation := {
  suggestionIndex : nat;
  shown : option JsString;   (* what [setCurrentSuggestion] received;
                                [None] stands for [undefined] *)
  ticking : bool             (* the interval is installed *)
}.

(** The effect body, run when [exampleQuestions] is set. *)
Definition mount (exampleQuestions : list JsString) : Rotation :=
  if length exampleQuestions =? 0
  then {| suggestionIndex := 0; shown := Some []; ticking := false |}
  else {| suggestionIndex := 0; shown := exampleQuestions !! 0;
          ticking := true |}.

(** The interval callback, every 5000 ms. *)
Definition tick (exampleQuestions : list JsString) (r : Rotation) : Rotation :=
  if ticking r
  then
    let i := (suggestionIndex r + 1) mod length exampleQuestions in
    {| suggestionIndex := i; shown := exampleQuestions !! i; ticking := true |}
  else r.

End SuggestionEffect.

(** ** [ChatInterface]: the page under fixed props *)

Module ChatUi.
Import Js Types ChatInterface.

(** One thing that happens to the component's state while its props stay:
    an event the page delivers, or the interval showing a suggestion. *)
Definition uiStep (p : Props) (st st' : State) : Prop :=
  (exists e, enabled p st e = true /\ st' = fst (dispatch p e st))
  \/ (exists q, st' = setCurrentSuggestion q st).

(** [t] is the displayable text of a grounding chunk of a model message of
    the transcript. *)
Definition citedIn (p : Props) (t : JsString) : Prop :=
  exists i j message chunks chunk,
    history p !! i = Some message
    /\ role message = model
    /\ groundingChunks message = Some chunks
    /\ chunks !! j = Some chunk
    /\ displayableText chunk = Some t.

Definition modalCited (p : Props) (st : State) : Prop :=
  match modalContent st with
  | Some t => citedIn p t
  | None => True
  end.

End ChatUi.

(** ** The upload loop: time spent waiting *)

Module UploadTiming.
Import GeminiService.

(** The milliseconds spent in [delay]. *)
Fixpoint waited (effects : list Effect) : N :=
  match effects with
  | [] => 0
  | Delay ms :: rest => ms + waited rest
  | _ :: rest => waited rest
  end.

End UploadTiming.

(** ** [ChatInterface]: [renderMarkdown]

    The regular expressions are embedded by what they match on a line:
    none of them leaves the engine a choice, [.] is any code unit but a
    line terminator, and [\s] is the white space [trim] strips. *)

Module Html.
Import Js JsLib.
Import Stdlib.Strings.String.

Definition quote : JsString := [34%N].

Definition strongOpen : JsString := str "<strong>".
Definition strongClose : JsString := str "</strong>".
Definition emOpen : JsString := str "<em>".
Definition emClose : JsString := str "</em>".

Definition codeOpen : JsString :=
  str "<code class=" ++ quote
  ++ str "bg-gem-mist/50 px-1 py-0.5 rounded-sm font-mono text-sm"
  ++ quote ++ str ">".
Definition codeClose : JsString := str "</code>".

Definition pOpen : JsString :=
  str "<p class=" ++ quote ++ str "my-2" ++ quote ++ str ">".
Definition pClose : JsString := str "</p>".

Definition olOpen : JsString :=
  str "<ol class=" ++ quote
  ++ str "list-decimal list-inside my-2 pl-5 space-y-1" ++ quote ++ str ">".
Definition ulOpen : JsString :=
  str "<ul class=" ++ quote
  ++ str "list-disc list-inside my-2 pl-5 space-y-1" ++ quote ++ str ">".
Definition olClose : JsString := str "</ol>".
Definition ulClose : JsString := str "</ul>".

Definition liOpen : JsString := str "<li>".
Definition liClose : JsString := str "</li>".
Definition br : JsString := str "<br/>".

Definition stars : JsString := str "**".
Definition underscores : JsString := str "__".
Definition star : JsString := str "*".
Definition underscore : JsString := str "_".

End Html.

Module Markdown.
Import Js JsLib Html.

(** [\n], [\r], U+2028, U+2029: what [.] does not match. *)
Definition isLineTerminator (c : N) : bool :=
  ((c =? 10) || (c =? 13) || (c =? 8232) || (c =? 8233))%N.

(** [\d] *)
Definition isDigit (c : N) : bool := ((48 <=? c) && (c <=? 57))%N.

Fixpoint takeWhile (p : N -> bool) (s : JsString) : JsString :=
  match s with
  | [] => []
  | c :: rest => if p c then c :: takeWhile p rest else []
  end.

Fixpoint dropWhile (p : N -> bool) (s : JsString) : JsString :=
  match s with
  | [] => []
  | c :: rest => if p c then dropWhile p rest else s
  end.

(** [(.*?)close] at the head of [s]: the shortest run of code units other
    than line terminators that [close] follows.  The result is the run and
    the number of code units matched. *)
Fixpoint lazyUntil (close : JsString) (s : JsString)
  : option (JsString * nat) :=
  if startsWith close s then Some ([], length close)
  else
    match s with
    | [] => None
    | c :: rest =>
        if isLineTerminator c then None
        else match lazyUntil close rest with
             | Some (run, n) => Some (c :: run, S n)
             | None => None
             end
    end.

(** [opening(.*?)closing] at the head of [s]. *)
Definition delimited (opening closing : JsString) (s : JsString)
  : option (JsString * nat) :=
  if startsWith opening s
  then match lazyUntil closing (drop (length opening) s) with
       | Some (run, n) => Some (run, length opening + n)
       | None => None
       end
  else None.

(** [/\*\*(.*?)\*\*|__(.*?)__/] at the head of [s]. *)
Definition matchStrong (s : JsString) : option (JsString * nat) :=
  match delimited stars stars s with
  | Some m => Some m
  | None => delimited underscores underscores s
  end.

(** [/\*(.*?)\*|_(.*?)_/] at the head of [s]. *)
Definition matchEm (s : JsString) : option (JsString * nat) :=
  match delimited star star s with
  | Some m => Some m
  | None => delimited underscore underscore s
  end.

(** [/`([^`]+)`/] at the head of [s]. *)
Definition matchCode (s : JsString) : option (JsString * nat) :=
  match s with
  | 96%N :: rest =>
      let run := takeWhile (fun c => negb (c =? 96)%N) rest in
      match run, drop (length run) rest with
      | _ :: _, 96%N :: _ => Some (run, length run + 2)
      | _, _ => None
      end
  | _ => None
  end.

(** [s.replace(regex, replacement)] for a global [regex]: the matches are
    taken from left to right, each search starting where the last match
    ended.  [skip] code units of the match under way are passed over. *)
Fixpoint replaceFrom (matchAt : JsString -> option (JsString * nat))
    (wrap : JsString -> JsString) (skip : nat) (s : JsString) : JsString :=
  match s with
  | [] => []
  | c :: rest =>
      match skip with
      | S k => replaceFrom matchAt wrap k rest
      | O =>
          match matchAt s with
          | Some (run, n) => wrap run ++ replaceFrom matchAt wrap (pred n) rest
          | None => c :: replaceFrom matchAt wrap 0 rest
          end
      end
  end.

Definition replaceAll (matchAt : JsString -> option (JsString * nat))
    (wrap : JsString -> JsString) (s : JsString) : JsString :=
  replaceFrom matchAt wrap 0 s.

(** The three [replace] calls on a raw line. *)
Definition inline (rawLine : JsString) : JsString :=
  replaceAll matchCode (fun run => codeOpen ++ run ++ codeClose)
    (replaceAll matchEm (fun run => emOpen ++ run ++ emClose)
       (replaceAll matchStrong (fun run => strongOpen ++ run ++ strongClose)
          rawLine)).

(** A [\s] and then the greedy group of any code units but line
    terminators, at the head of [s]: the group. *)
Definition afterMarker (s : JsString) : option JsString :=
  match s with
  | w :: rest =>
      if isWhiteSpace w
      then Some (takeWhile (fun c => negb (isLineTerminator c)) rest)
      else None
  | [] => None
  end.

(** [line.match(...)] for white space, digits, a dot, a [\s] and the
    group: the group [1] of the match. *)
Definition matchOl (line : JsString) : option JsString :=
  let s1 := dropWhile isWhiteSpace line in
  let s2 := dropWhile isDigit s1 in
  if length s2 <? length s1
  then match s2 with
       | 46%N :: rest => afterMarker rest
       | _ => None
       end
  else None.

(** [line.match(...)] for white space, [*] or [-], a [\s] and the group:
    the group [1] of the match. *)
Definition matchUl (line : JsString) : option JsString :=
  match dropWhile isWhiteSpace line with
  | c :: rest =>
      if ((c =? 42) || (c =? 45))%N then afterMarker rest else None
  | [] => None
  end.

Inductive ListType := ol | ul.

Definition ListType_eqb (a b : ListType) : bool :=
  match a, b with
  | ol, ol | ul, ul => true
  | _, _ => false
  end.

Definition openTag (t : ListType) : JsString :=
  match t with ol => olOpen | ul => ulOpen end.

(** [`</${listType}>`] *)
Definition closeTag (t : ListType) : JsString :=
  match t with ol => olClose | ul => ulClose end.

(** The three variables of the loop. *)
Record Renderer := {
  html : JsString;
  listType : option ListType;
  paraBuffer : JsString
}.

Definition start : Renderer :=
  {| html := []; listType := None; paraBuffer := [] |}.

Definition flushPara (r : Renderer) : Renderer :=
  if truthy (paraBuffer r)
  then {| html := html r ++ pOpen ++ paraBuffer r ++ pClose;
          listType := listType r;
          paraBuffer := [] |}
  else r.

Definition flushList (r : Renderer) : Renderer :=
  match listType r with
  | Some t => {| html := html r ++ closeTag t;
                 listType := None;
                 paraBuffer := paraBuffer r |}
  | None => r
  end.

(** The branch of a list line: [flushPara()], the opening tag unless the
    list of that type is open already, the item. *)
Definition listLine (t : ListType) (item : JsString) (r : Renderer)
  : Renderer :=
  let r1 := flushPara r in
  let r2 :=
    match listType r1 with
    | Some t' =>
        if ListType_eqb t' t then r1
        else let r' := flushList r1 in
             {| html := html r' ++ openTag t; listType := Some t;
                paraBuffer := paraBuffer r' |}
    | None =>
        let r' := flushList r1 in
        {| html := html r' ++ openTag t; listType := Some t;
           paraBuffer := paraBuffer r' |}
    end in
  {| html := html r2 ++ liOpen ++ item ++ liClose;
     listType := listType r2;
     paraBuffer := paraBuffer r2 |}.

(** The body of [for (const rawLine of lines)]. *)
Definition step (r : Renderer) (rawLine : JsString) : Renderer :=
  let line := inline rawLine in
  match matchOl line with
  | Some item => listLine ol item r
  | None =>
      match matchUl line with
      | Some item => listLine ul item r
      | None =>
          let r1 := flushList r in
          if truthy (trim line) then
            {| html := html r1;
               listType := listType r1;
               paraBuffer :=
                 paraBuffer r1
                 ++ (if truthy (paraBuffer r1) then br else []) ++ line |}
          else flushPara r1
      end
  end.

(** The loop and the two flushes after it. *)
Definition renderLines (lines : list JsString) : JsString :=
  html (flushList (flushPara (foldl step start lines))).

(** [renderMarkdown(text).__html] *)
Definition renderMarkdown (text : JsString) : JsString :=
  if truthy text then renderLines (App.splitLines text) else [].

(** The characters the inline patterns start with: [*], [_] and the
    backtick. *)
Definition isMarkup (c : N) : bool :=
  ((c =? 42) || (c =? 95) || (c =? 96))%N.

(** A line free of inline markup. *)
Definition plain (s : JsString) : bool :=
  forallb (fun c => negb (isMarkup c)) s.

(** Lines joined by [<br/>]. *)
Definition joinBr (lines : list JsString) : JsString :=
  match lines with
  | [] => []
  | line :: rest => line ++ concat (map (fun l => br ++ l) rest)
  end.

Definition listItems (items : list JsString) : JsString :=
  concat (map (fun item => liOpen ++ item ++ liClose) items).

(** What a line is to the loop, once its inline markup is replaced. *)
Inductive LineKind :=
| Item (t : ListType) (item : JsString)
| Text (line : JsString)
| Blank.

Definition classify (rawLine : JsString) : LineKind :=
  let line := inline rawLine in
  match matchOl line with
  | Some item => Item ol item
  | None =>
      match matchUl line with
      | Some item => Item ul item
      | None => if truthy (trim line) then Text line else Blank
      end
  end.

(** The renderer with [h] already written before its output. *)
Definition prepend (h : JsString) (r : Renderer) : Renderer :=
  {| html := h ++ html r; listType := listType r;
     paraBuffer := paraBuffer r |}.

(** What the loop keeps: no paragraph is under way while a list is open. *)
Definition tidy (r : Renderer) : Prop :=
  listType r = None \/ paraBuffer r = [].

End Markdown.

(** * Properties *)

(** ** Trimming *)

Section TrimFacts.
Import Js.

Lemma trimStart_nil_iff (s : JsString) :
  trimStart s = [] <-> forallb isWhiteSpace s = true.
Proof.
  induction s as [|c rest IH]; simpl.
  - tauto.
  - destruct (isWhiteSpace c); simpl.
    + exact IH.
    + split; discriminate.
Qed.

Lemma trimStart_suffix (s : JsString) :
  exists ws, s = ws ++ trimStart s /\ forallb isWhiteSpace ws = true.
Proof.
  induction s as [|c rest [ws [Hs Hws]]]; simpl.
  - exists []. auto.
  - destruct (isWhiteSpace c) eqn:Hc.
    + exists (c :: ws). simpl. rewrite Hc, Hws.
      split; [now rewrite <- Hs | reflexivity].
    + exists []. auto.
Qed.

Lemma forallb_rev_true (p : N -> bool) (s : JsString) :
  forallb p (rev s) = true <-> forallb p s = true.
Proof.
  rewrite !forallb_forall. split; intros H x Hx; apply H.
  - now apply in_rev in Hx.
  - now apply in_rev.
Qed.

(** A string trims to the empty string exactly when it consists of white
    space only. *)
Lemma trim_nil_iff (s : JsString) :
  trim s = [] <-> forallb isWhiteSpace s = true.
Proof.
  unfold trim, trimEnd. split.
  - intros H.
    assert (Hr : trimStart (rev (trimStart s)) = []).
    { rewrite <- (rev_involutive (trimStart _)), H. reflexivity. }
    apply trimStart_nil_iff in Hr.
    rewrite forallb_rev_true in Hr.
    destruct (trimStart_suffix s) as [ws [Hs Hws]].
    rewrite Hs, forallb_app, Hws, Hr. reflexivity.
  - intros H. apply trimStart_nil_iff in H. rewrite H. reflexivity.
Qed.

Example isWhiteSpace_samples :
  map isWhiteSpace [9; 10; 13; 14; 32; 104; 160; 8200; 8203; 12288; 65279]%N
  = [true; true; true; false; true; false; true; true; false; true; true].
Proof. reflexivity. Qed.

Example trim_sample :
  trim [32; 9; 104; 32; 105; 10; 160]%N = [104; 32; 105]%N.
Proof. reflexivity. Qed.

Lemma truthy_false_iff (s : JsString) : truthy s = false <-> s = [].
Proof. destruct s; simpl; split; congruence. Qed.

End TrimFacts.

(** ** The submit handler *)

Section SubmitFacts.
Import Js ChatInterface.

Lemma handleSubmit_nonblank (st : State) :
  trim (query st) <> [] ->
  handleSubmit st = (setQuery [] st, [SendMessage (query st)]).
Proof.
  intros H. unfold handleSubmit.
  destruct (truthy (trim (query st))) eqn:E; [reflexivity|].
  apply truthy_false_iff in E. contradiction.
Qed.

Lemma handleSubmit_blank (st : State) :
  trim (query st) = [] -> handleSubmit st = (st, []).
Proof.
  intros H. unfold handleSubmit. rewrite H. reflexivity.
Qed.

(** C10. Submitting the chat form calls [onSendMessage] if and only if the
    query is non-empty after trimming; the call receives the query as
    typed (untrimmed) and the input is cleared afterwards; a query made
    of white space only produces no call, hence no user message. *)
Theorem handleSubmit_sends_iff_nonblank (st : State) :
  (forall m, In (SendMessage m) (snd (handleSubmit st)) <->
             trim (query st) <> [] /\ m = query st)
  /\ (trim (query st) <> [] ->
      snd (handleSubmit st) = [SendMessage (query st)]
      /\ query (fst (handleSubmit st)) = [])
  /\ (trim (query st) = [] -> handleSubmit st = (st, []))
  /\ (forallb isWhiteSpace (query st) = true -> snd (handleSubmit st) = []).
Proof.
  split; [|split; [|split]].
  - intros m. split.
    + intros Hin.
      destruct (trim (query st)) as [|c t] eqn:E.
      * rewrite (handleSubmit_blank st E) in Hin. destruct Hin.
      * assert (Hne : trim (query st) <> []) by (rewrite E; discriminate).
        rewrite (handleSubmit_nonblank st Hne) in Hin.
        destruct Hin as [Hin|[]]. split; [discriminate | congruence].
    + intros [Hne ->]. rewrite (handleSubmit_nonblank st Hne).
      left. reflexivity.
  - intros Hne. rewrite (handleSubmit_nonblank st Hne). split; reflexivity.
  - apply handleSubmit_blank.
  - intros H. apply trim_nil_iff in H.
    rewrite (handleSubmit_blank st H). reflexivity.
Qed.

(** " hi " is sent as typed; a tab and two spaces are not sent. *)
Lemma handleSubmit_sends_iff_nonblank_witness :
  snd (handleSubmit {| query := [32; 104; 105; 32]%N;
                       currentSuggestion := [];
                       modalContent := None |})
  = [SendMessage [32; 104; 105; 32]%N]
  /\ snd (handleSubmit {| query := [9; 32; 32]%N;
                          currentSuggestion := [];
                          modalContent := None |}) = [].
Proof.
  split.
  - apply (handleSubmit_sends_iff_nonblank
             {| query := [32; 104; 105; 32]%N;
                currentSuggestion := [];
                modalContent := None |}).
    simpl. discriminate.
  - apply (handleSubmit_sends_iff_nonblank
             {| query := [9; 32; 32]%N;
                currentSuggestion := [];
                modalContent := None |}).
    reflexivity.
Defined.

End SubmitFacts.

(** ** The progress bar *)

Section ProgressFacts.
Import ProgressBar.
Open Scope float_scope.

(** A total equal to zero (of either sign) is not above zero. *)
Lemma zero_not_positive (total : float) :
  (total =? 0) = true -> (0 <? total) = false.
Proof.
  rewrite FloatAxioms.eqb_spec, FloatAxioms.ltb_spec.
  change (Prim2SF 0) with (S754_zero false).
  destruct (Prim2SF total) as [sg|sg| |sg m e]; simpl;
    try discriminate; try reflexivity.
  all: destruct sg; simpl; try discriminate; reflexivity.
Qed.

(** C9. The fill percentage is [(progress / total) * 100] when
    [total > 0] and [0] when [total] is zero; in the latter case the
    width is a number (not NaN) and finite, the division not being
    evaluated. *)
Theorem percentage_guarded (progress total : float) :
  ((0 <? total) = true ->
   percentage progress total = (progress / total) * 100)
  /\ ((total =? 0) = true ->
      percentage progress total = 0
      /\ is_nan (percentage progress total) = false
      /\ is_infinity (percentage progress total) = false).
Proof.
  unfold percentage. split.
  - intros ->. reflexivity.
  - intros H. rewrite (zero_not_positive total H).
    repeat split; reflexivity.
Qed.

Lemma percentage_guarded_witness :
  percentage 1 2 = 50 /\ percentage 3 0 = 0.
Proof.
  split.
  - rewrite (proj1 (percentage_guarded 1 2)); reflexivity.
  - apply (proj2 (percentage_guarded 3 0)). reflexivity.
Defined.

(** Without the guard a zero total gives NaN or an infinite width. *)
Example unguarded_zero_total :
  is_nan (unguarded 0 0) = true /\ unguarded 3 0 = infinity.
Proof. split; reflexivity. Qed.

End ProgressFacts.

(** ** Source buttons *)

Section SourceFacts.
Import Js Types ChatInterface.

Lemma renderChunk_displayable (i : nat) (chunk : GroundingChunk) (t : JsString) :
  displayableText chunk = Some t ->
  renderChunk i chunk
  = Button {| key := i; sourceNumber := i + 1; onClickText := t |}.
Proof.
  unfold displayableText, renderChunk.
  destruct (retrievedText chunk) as [s|]; [|discriminate].
  destruct (truthy s); [|discriminate].
  intros [= ->]. reflexivity.
Qed.

Lemma renderChunk_not_displayable (i : nat) (chunk : GroundingChunk) :
  displayableText chunk = None ->
  renderChunk i chunk = Falsy (retrievedText chunk).
Proof.
  unfold displayableText, renderChunk.
  destruct (retrievedText chunk) as [s|]; [|reflexivity].
  destruct (truthy s); [discriminate|reflexivity].
Qed.

Lemma displayableText_nonempty (chunk : GroundingChunk) (t : JsString) :
  displayableText chunk = Some t -> retrievedText chunk = Some t /\ t <> [].
Proof.
  unfold displayableText.
  destruct (retrievedText chunk) as [s|]; [|discriminate].
  destruct s; simpl; [discriminate|].
  intros [= <-]. split; [reflexivity|discriminate].
Qed.

Lemma nodesFrom_cons (k : nat) (chunk : GroundingChunk) chunks :
  nodesFrom k (chunk :: chunks)
  = renderChunk (k + 0) chunk :: nodesFrom (S k) chunks.
Proof.
  unfold nodesFrom. rewrite imap_cons. f_equal.
  apply imap_ext. intros i x _. simpl. f_equal. lia.
Qed.

Lemma button_texts_from (k : nat) (chunks : list GroundingChunk) :
  onClickText <$> buttons (nodesFrom k chunks) = omap displayableText chunks.
Proof.
  revert k. induction chunks as [|chunk chunks IH]; intros k.
  - reflexivity.
  - rewrite nodesFrom_cons. unfold buttons in *. simpl.
    destruct (displayableText chunk) as [t|] eqn:E.
    + rewrite (renderChunk_displayable _ _ _ E). simpl.
      f_equal. apply IH.
    + rewrite (renderChunk_not_displayable _ _ E). simpl. apply IH.
Qed.

Lemma button_numbers_from (k : nat) (chunks : list GroundingChunk) :
  StronglySorted lt (sourceNumber <$> buttons (nodesFrom k chunks))
  /\ Forall (lt k) (sourceNumber <$> buttons (nodesFrom k chunks)).
Proof.
  revert k. induction chunks as [|chunk chunks IH]; intros k.
  - split; constructor.
  - rewrite nodesFrom_cons. unfold buttons in *. simpl.
    destruct (IH (S k)) as [Hsorted Hlow].
    assert (Hlow' : Forall (lt k)
              (sourceNumber <$> omap nodeButton (nodesFrom (S k) chunks))).
    { eapply Forall_impl; [exact Hlow|]. intros n Hn. simpl in Hn. lia. }
    destruct (displayableText chunk) as [t|] eqn:E.
    + rewrite (renderChunk_displayable _ _ _ E). simpl. split.
      * constructor; [exact Hsorted|].
        eapply Forall_impl; [exact Hlow|]. intros n Hn. simpl in Hn. lia.
      * constructor; [lia | exact Hlow'].
    + rewrite (renderChunk_not_displayable _ _ E). simpl.
      split; assumption.
Qed.

Lemma renderChunks_from_zero (chunks : list GroundingChunk) :
  renderChunks chunks = nodesFrom 0 chunks.
Proof. reflexivity. Qed.

Lemma renderChunks_lookup (chunks : list GroundingChunk) (i : nat) :
  renderChunks chunks !! i = renderChunk i <$> chunks !! i.
Proof. unfold renderChunks. apply list_lookup_imap. Qed.

(** C3. The citation buttons follow the order of the grounding chunks in
    the response.  A chunk without retrievable text gets no button; it
    keeps its slot all the same, so a later chunk is still numbered by
    its own position in the response.  Every chunk list renders: one node
    per chunk, whatever is missing from a chunk. *)
Theorem renderChunks_keeps_response_order (chunks : list GroundingChunk) :
  length (renderChunks chunks) = length chunks
  /\ (forall i chunk, chunks !! i = Some chunk ->
        match displayableText chunk with
        | Some t =>
            renderChunks chunks !! i
            = Some (Button {| key := i; sourceNumber := i + 1;
                              onClickText := t |})
        | None =>
            renderChunks chunks !! i = Some (Falsy (retrievedText chunk))
        end)
  /\ onClickText <$> buttons (renderChunks chunks)
     = omap displayableText chunks
  /\ StronglySorted lt (sourceNumber <$> buttons (renderChunks chunks)).
Proof.
  split; [|split; [|split]].
  - apply length_imap.
  - intros i chunk Hi. rewrite renderChunks_lookup, Hi. simpl.
    destruct (displayableText chunk) as [t|] eqn:E.
    + now rewrite (renderChunk_displayable _ _ _ E).
    + now rewrite (renderChunk_not_displayable _ _ E).
  - rewrite renderChunks_from_zero. apply button_texts_from.
  - rewrite renderChunks_from_zero. apply button_numbers_from.
Qed.

(** A chunk without retrieved context, then one with text: the second
    keeps the number 2. *)
Lemma renderChunks_keeps_response_order_witness :
  renderChunks
    [ {| retrievedContext := None |};
      {| retrievedContext := Some {| text := Some [98]%N |} |} ] !! 1
  = Some (Button {| key := 1; sourceNumber := 2; onClickText := [98]%N |}).
Proof.
  exact (proj1 (proj2 (renderChunks_keeps_response_order
           [ {| retrievedContext := None |};
             {| retrievedContext := Some {| text := Some [98]%N |} |} ]))
         1 {| retrievedContext := Some {| text := Some [98]%N |} |} eq_refl).
Defined.

(** Three chunks, the middle one without text: buttons "Source 1" and
    "Source 3". *)
Example renderChunks_gap :
  buttons (renderChunks
    [ {| retrievedContext := Some {| text := Some [97]%N |} |};
      {| retrievedContext := None |};
      {| retrievedContext := Some {| text := Some [98]%N |} |} ])
  = [ {| key := 0; sourceNumber := 1; onClickText := [97]%N |};
      {| key := 2; sourceNumber := 3; onClickText := [98]%N |} ].
Proof. reflexivity. Qed.

Lemma sourceButtonAt_message (p : Props) (i j : nat) (message : ChatMessage) :
  renders p = true ->
  history p !! i = Some message ->
  sourceButtonAt p i j
  = (nodes ← renderSources message; node ← nodes !! j; nodeButton node).
Proof.
  intros Hp H. unfold sourceButtonAt. rewrite Hp, H. reflexivity.
Qed.

Lemma enabled_source (p : Props) (st : State) (i j : nat) :
  renders p = true ->
  enabled p st (ClickSource i j)
  = match sourceButtonAt p i j with Some _ => true | None => false end.
Proof. intros Hp. unfold enabled. rewrite Hp. reflexivity. Qed.

(** A render that throws leaves no button. *)
Lemma no_render_no_button (p : Props) (st : State) (i j : nat) :
  renders p = false ->
  sourceButtonAt p i j = None /\ enabled p st (ClickSource i j) = false.
Proof.
  intros Hp. unfold enabled, sourceButtonAt. rewrite Hp. auto.
Qed.

Lemma renderSources_model (message : ChatMessage) (chunks : list GroundingChunk) :
  role message = model -> groundingChunks message = Some chunks ->
  renderSources message
  = if 0 <? length chunks then Some (renderChunks chunks) else None.
Proof. intros Hr Hc. unfold renderSources. rewrite Hr, Hc. reflexivity. Qed.

Lemma renderSources_no_chunks (message : ChatMessage) :
  groundingChunks message = None -> renderSources message = None.
Proof.
  intros Hc. unfold renderSources. rewrite Hc. now destruct (role message).
Qed.

(** C8. On the rendered page, a model message of the transcript either
    shows no source buttons (it has no grounding chunks), or each of its
    chunks with displayable text has a button of its own: clicking it
    opens exactly that chunk's text, whatever the other chunks are, and a
    chunk without such text has nothing to click.  The buttons stand in
    the order of the chunks in the response.  (The page is rendered when
    the body of every message can be read; with a message that has no
    first part the render throws and no button is there to click.) *)
Theorem model_sources_independently_clickable
    (p : Props) (st : State) (i : nat) (message : ChatMessage) :
  history p !! i = Some message ->
  role message = model ->
  if renders p
  then
    match groundingChunks message with
    | None => forall j, enabled p st (ClickSource i j) = false
    | Some chunks =>
        (chunks = [] -> forall j, enabled p st (ClickSource i j) = false)
        /\ (forall j chunk, chunks !! j = Some chunk ->
              match displayableText chunk with
              | Some t =>
                  sourceButtonAt p i j
                  = Some {| key := j; sourceNumber := j + 1;
                            onClickText := t |}
                  /\ enabled p st (ClickSource i j) = true
                  /\ dispatch p (ClickSource i j) st
                     = (setModalContent (Some t) st, [])
              | None => enabled p st (ClickSource i j) = false
              end)
        /\ (forall nodes, renderSources message = Some nodes ->
              onClickText <$> buttons nodes = omap displayableText chunks)
    end
  else
    forall i' j,
      sourceButtonAt p i' j = None
      /\ enabled p st (ClickSource i' j) = false.
Proof.
  intros Hi Hrole.
  destruct (renders p) eqn:Hp;
    [|intros i' j; apply no_render_no_button; exact Hp].
  destruct (groundingChunks message) as [chunks|] eqn:Hc.
  - pose proof (renderSources_model message chunks Hrole Hc) as Hrender.
    split; [|split].
    + intros -> j. simpl in Hrender.
      rewrite (enabled_source p st i j Hp).
      rewrite (sourceButtonAt_message p i j message Hp Hi).
      rewrite Hrender. reflexivity.
    + intros j chunk Hj.
      assert (Hlen : (0 <? length chunks) = true).
      { apply Nat.ltb_lt. apply lookup_lt_Some in Hj. lia. }
      rewrite Hlen in Hrender.
      assert (Hat : sourceButtonAt p i j = nodeButton (renderChunk j chunk)).
      { rewrite (sourceButtonAt_message p i j message Hp Hi), Hrender. simpl.
        rewrite renderChunks_lookup, Hj. reflexivity. }
      rewrite (enabled_source p st i j Hp).
      destruct (displayableText chunk) as [t|] eqn:E.
      * rewrite (renderChunk_displayable _ _ _ E) in Hat. simpl in Hat.
        unfold dispatch. rewrite Hat. auto.
      * rewrite (renderChunk_not_displayable _ _ E) in Hat. simpl in Hat.
        rewrite Hat. reflexivity.
    + intros nodes Hnodes. rewrite Hrender in Hnodes.
      destruct (0 <? length chunks); [|discriminate].
      injection Hnodes as <-.
      rewrite renderChunks_from_zero. apply button_texts_from.
  - intros j. rewrite (enabled_source p st i j Hp).
    rewrite (sourceButtonAt_message p i j message Hp Hi).
    rewrite (renderSources_no_chunks message Hc). reflexivity.
Qed.

(** A transcript of one model message with two chunks, the first without
    text: clicking "Source 2" opens the second chunk's text. *)
Lemma model_sources_independently_clickable_witness :
  dispatch
    {| documentName := [];
       history :=
         [ {| role := model;
              parts := [ {| partText := [65]%N |} ];
              groundingChunks :=
                Some [ {| retrievedContext := None |};
                       {| retrievedContext :=
                            Some {| text := Some [98]%N |} |} ] |} ];
       isQueryLoading := false;
       exampleQuestions := [] |}
    (ClickSource 0 1)
    {| query := []; currentSuggestion := []; modalContent := None |}
  = ({| query := []; currentSuggestion := [];
        modalContent := Some [98]%N |}, []).
Proof.
  pose proof (model_sources_independently_clickable
    {| documentName := [];
       history :=
         [ {| role := model;
              parts := [ {| partText := [65]%N |} ];
              groundingChunks :=
                Some [ {| retrievedContext := None |};
                       {| retrievedContext :=
                            Some {| text := Some [98]%N |} |} ] |} ];
       isQueryLoading := false;
       exampleQuestions := [] |}
    {| query := []; currentSuggestion := []; modalContent := None |}
    0 _ eq_refl eq_refl) as H.
  simpl in H. destruct H as [_ [H _]].
  specialize (H 1 _ eq_refl). simpl in H.
  destruct H as [_ [_ H]]. exact H.
Defined.

(** A message without a first part: the render throws, and the source
    button of the message before it is not on the page either. *)
Example unrenderable_transcript :
  sourceButtonAt
    {| documentName := [];
       history :=
         [ {| role := model;
              parts := [ {| partText := [65]%N |} ];
              groundingChunks :=
                Some [ {| retrievedContext :=
                            Some {| text := Some [98]%N |} |} ] |};
           {| role := user; parts := []; groundingChunks := None |} ];
       isQueryLoading := false;
       exampleQuestions := [] |}
    0 0 = None.
Proof. reflexivity. Qed.

End SourceFacts.

(** ** The upload polling loop *)

Section PollFacts.
Import Js GeminiService.

Lemma poll_done (replies : list Reply) (op : Operation) :
  done op = true -> poll replies op = ([], Returned).
Proof. intros H. destruct replies; simpl; rewrite H; reflexivity. Qed.

Lemma poll_step (op op' : Operation) (rest : list Reply) :
  done op = false ->
  poll (Resolved op' :: rest) op
  = (round ++ fst (poll rest op'), snd (poll rest op')).
Proof.
  intros H. simpl. rewrite H. destruct (poll rest op'). reflexivity.
Qed.

Lemma poll_rejected (op : Operation) (reason : JsString) (rest : list Reply) :
  done op = false ->
  poll (Rejected reason :: rest) op = (round, Threw reason).
Proof. intros H. simpl. rewrite H. reflexivity. Qed.

Lemma stops_false_inv (r : Reply) :
  stops r = false -> exists op, r = Resolved op /\ done op = false.
Proof. destruct r as [op|reason]; simpl; [eauto|discriminate]. Qed.

(** The loop runs one round per reply up to the first one that stops it,
    and reads nothing after that one. *)
Lemma poll_until_stop (pre post : list Reply) (r : Reply) (op : Operation) :
  done op = false ->
  Forall (fun x => stops x = false) pre ->
  stops r = true ->
  poll (pre ++ r :: post) op = (rounds (S (length pre)), outcomeOf r).
Proof.
  revert op. induction pre as [|r0 pre IH]; intros op Hop Hpre Hr.
  - destruct r as [op'|reason]; simpl in Hr |- *; rewrite Hop.
    + rewrite (poll_done post op' Hr). reflexivity.
    + reflexivity.
  - inversion Hpre as [|? ? Hr0 Hpre']; subst.
    destruct (stops_false_inv r0 Hr0) as [op0 [-> Hop0]].
    change ((Resolved op0 :: pre) ++ r :: post)
      with (Resolved op0 :: (pre ++ r :: post)).
    rewrite (poll_step op op0 _ Hop), (IH op0 Hop0 Hpre' Hr).
    reflexivity.
Qed.

(** While no reply stops it, the loop is still polling, one round ahead
    of the replies. *)
Lemma poll_unfinished (replies : list Reply) (op : Operation) :
  done op = false ->
  Forall (fun x => stops x = false) replies ->
  poll replies op = (rounds (S (length replies)), StillPolling).
Proof.
  revert op. induction replies as [|r0 replies IH]; intros op Hop Hall.
  - simpl. rewrite Hop. reflexivity.
  - inversion Hall as [|? ? Hr0 Hall']; subst.
    destruct (stops_false_inv r0 Hr0) as [op0 [-> Hop0]].
    rewrite (poll_step op op0 _ Hop), (IH op0 Hop0 Hall'). reflexivity.
Qed.

Lemma polls_rounds (n : nat) : polls (rounds n) = n.
Proof.
  unfold polls. induction n as [|n IH]; simpl; [reflexivity|].
  now rewrite IH.
Qed.

(** On a reply of the protocol, the flag the loop tests says whether the
    handle reports done or an error. *)
Lemma protocol_stops (r : Reply) :
  protocolReply r = true -> stops r = reportsDoneOrError r.
Proof.
  destruct r as [op|reason]; [|reflexivity].
  unfold protocolReply, wellFormed, stops, reportsDoneOrError.
  destruct (error op), (done op); intros H; (reflexivity || discriminate).
Qed.

Lemma quiet_continues (r : Reply) :
  reportsDoneOrError r = false -> stops r = false.
Proof.
  destruct r as [op|reason]; [|discriminate].
  unfold stops, reportsDoneOrError. destruct (done op); [discriminate|auto].
Qed.

Lemma quiet_all_continue (replies : list Reply) :
  Forall (fun x => reportsDoneOrError x = false) replies ->
  Forall (fun x => stops x = false) replies.
Proof.
  induction 1 as [|r replies Hr _ IH]; constructor;
    [apply quiet_continues; exact Hr | exact IH].
Qed.

(** C1. Each status request follows a pause of 3000 ms.  A handle that is
    done at submission is never polled.  Otherwise the loop asks again
    after every reply that reports neither done nor an error, and the
    first reply that reports done or an error (a finished operation with
    or without an error payload, or a request that failed) is the last:
    the loop leaves then, returning or throwing the failure, and issues no
    further request, whatever the remote would have answered next.  As
    long as no reply has reported done or an error the loop is still
    polling, one pause and one request ahead of the replies. *)
Theorem poll_stops_once_done_or_error
    (op : Operation) (pre post : list Reply) (r : Reply) :
  (done op = true -> poll (pre ++ r :: post) op = ([], Returned))
  /\ (done op = false ->
      Forall (fun x => reportsDoneOrError x = false) pre ->
      reportsDoneOrError r = true ->
      protocolReply r = true ->
      poll (pre ++ r :: post) op = (rounds (S (length pre)), outcomeOf r)
      /\ polls (fst (poll (pre ++ r :: post) op)) = S (length pre))
  /\ (done op = false ->
      Forall (fun x => reportsDoneOrError x = false) (pre ++ r :: post) ->
      poll (pre ++ r :: post) op
      = (rounds (S (length (pre ++ r :: post))), StillPolling)).
Proof.
  split; [|split].
  - apply poll_done.
  - intros Hop Hpre Hr Hprotocol.
    rewrite <- (protocol_stops r Hprotocol) in Hr.
    rewrite (poll_until_stop pre post r op Hop
               (quiet_all_continue pre Hpre) Hr).
    split; [reflexivity | apply polls_rounds].
  - intros Hop Hall. apply poll_unfinished; [exact Hop|].
    apply quiet_all_continue. exact Hall.
Qed.

(** Two replies of an operation still running, then the operation has
    failed (done, with an error payload): three rounds, and the fourth
    reply is never asked for. *)
Lemma poll_stops_once_done_or_error_witness :
  poll [ Resolved {| done := false; error := None |};
         Resolved {| done := false; error := None |};
         Resolved {| done := true; error := Some [113]%N |};
         Resolved {| done := false; error := None |} ]
       {| done := false; error := None |}
  = ([ Delay 3000; GetOperation;
       Delay 3000; GetOperation;
       Delay 3000; GetOperation ], Returned).
Proof.
  apply (poll_stops_once_done_or_error
           {| done := false; error := None |}
           [ Resolved {| done := false; error := None |};
             Resolved {| done := false; error := None |} ]
           [ Resolved {| done := false; error := None |} ]
           (Resolved {| done := true; error := Some [113]%N |})).
  - reflexivity.
  - repeat constructor.
  - reflexivity.
  - reflexivity.
Defined.

(** A request that fails ends the loop as well, by throwing. *)
Example poll_request_fails :
  poll [ Resolved {| done := false; error := None |};
         Rejected [110; 101; 116]%N;
         Resolved {| done := true; error := None |} ]
       {| done := false; error := None |}
  = ([ Delay 3000; GetOperation; Delay 3000; GetOperation ],
     Threw [110; 101; 116]%N).
Proof. reflexivity. Qed.

(** A run observed up to its first reply, which is not done: the second
    request is out and unanswered. *)
Example poll_one_reply :
  poll [ Resolved {| done := false; error := None |} ]
       {| done := false; error := None |}
  = ([ Delay 3000; GetOperation; Delay 3000; GetOperation ], StillPolling).
Proof. reflexivity. Qed.

End PollFacts.

(** ** One query at a time *)

Section QueryFacts.
Import Js Types ChatInterface ChatSession.

Lemma handleSubmit_sends_le_1 (st : State) :
  sends (snd (handleSubmit st)) <= 1.
Proof.
  unfold handleSubmit, sends.
  destruct (truthy (trim (query st))); simpl; lia.
Qed.

Lemma dispatch_sends_le_1 (p : Props) (e : Event) (st : State) :
  sends (snd (dispatch p e st)) <= 1.
Proof.
  destruct e as [v| | |shown| |i j|]; simpl;
    try apply handleSubmit_sends_le_1; try (unfold sends; simpl; lia).
  destruct (sourceButtonAt p i j); unfold sends; simpl; lia.
Qed.

Lemma enabled_offered (p : Props) (st : State) (e : Event) :
  enabled p st e = true -> renders p = true /\ offered p st e = true.
Proof. unfold enabled. intros H. apply andb_prop in H. exact H. Qed.

(** While a query is loading, no event that the page can deliver reaches
    [onSendMessage]: the two ways into [handleSubmit] are disabled, and no
    other handler calls it. *)
Lemma loading_blocks_send (p : Props) (st : State) (e : Event) :
  isQueryLoading p = true ->
  enabled p st e = true ->
  sends (snd (dispatch p e st)) = 0.
Proof.
  intros Hload Hen. apply enabled_offered in Hen. destruct Hen as [_ Hen].
  destruct e as [v| | |shown| |i j|]; simpl in *; try reflexivity.
  - unfold inputDisabled, sendDisabled in Hen. rewrite Hload in Hen.
    discriminate.
  - unfold sendDisabled in Hen. rewrite Hload in Hen. discriminate.
  - destruct (sourceButtonAt p i j); reflexivity.
Qed.

Lemma inFlight_foldl_deliver (calls : list Callback) (s : Session) :
  inFlight (foldl deliver s calls) = inFlight s + sends calls.
Proof.
  revert s. induction calls as [|c calls IH]; intros s; simpl.
  - unfold sends. simpl. lia.
  - rewrite IH. destruct c; unfold sends; simpl; lia.
Qed.

Lemma step_keeps_one_in_flight (s s' : Session) :
  step s s' -> inFlight s <= 1 -> inFlight s' <= 1.
Proof.
  intros Hstep Hle. destruct Hstep as [s e Hen|s appended Hpos|s q Hq].
  - rewrite inFlight_foldl_deliver. simpl.
    destruct (inFlight s) as [|n] eqn:En.
    + pose proof (dispatch_sends_le_1 (props s) e (ui s)). lia.
    + rewrite (loading_blocks_send (props s) (ui s) e); [lia| |exact Hen].
      unfold props. simpl. rewrite En. reflexivity.
  - simpl. lia.
  - simpl. exact Hle.
Qed.

Lemma run_keeps_one_in_flight (s0 s : Session) :
  rtc step s0 s -> inFlight s0 <= 1 -> inFlight s <= 1.
Proof.
  induction 1 as [s|s1 s2 s3 Hstep _ IH]; intros Hle.
  - exact Hle.
  - apply IH. exact (step_keeps_one_in_flight s1 s2 Hstep Hle).
Qed.

(** C5. At every point of a chat session at most one query is in flight.
    While one is loading, the text input and the send button are
    disabled, and nothing the user can still do calls [onSendMessage]. *)
Theorem at_most_one_query_in_flight (s0 s : Session) :
  inFlight s0 = 0 ->
  rtc step s0 s ->
  inFlight s <= 1
  /\ (isQueryLoading (props s) = true ->
      inputDisabled (props s) = true
      /\ sendDisabled (props s) (ui s) = true
      /\ forall e, enabled (props s) (ui s) e = true ->
                   sends (snd (dispatch (props s) e (ui s))) = 0).
Proof.
  intros H0 Hrun. split.
  - apply (run_keeps_one_in_flight s0 s Hrun). lia.
  - intros Hload. split; [exact Hload|]. split.
    + unfold sendDisabled. rewrite Hload. reflexivity.
    + intros e. apply loading_blocks_send. exact Hload.
Qed.

(** "hi" is typed and sent: one query is in flight, and the send button
    is disabled. *)
Lemma at_most_one_query_in_flight_witness :
  inFlight
    (foldl deliver
       (withUi (fst (handleSubmit {| query := [104; 105]%N;
                                     currentSuggestion := [];
                                     modalContent := None |}))
          {| ui := {| query := [104; 105]%N; currentSuggestion := [];
                      modalContent := None |};
             title := []; transcript := []; suggestions := [];
             inFlight := 0 |})
       [SendMessage [104; 105]%N]) <= 1.
Proof.
  apply (at_most_one_query_in_flight
           {| ui := {| query := [104; 105]%N; currentSuggestion := [];
                       modalContent := None |};
              title := []; transcript := []; suggestions := [];
              inFlight := 0 |}).
  - reflexivity.
  - apply rtc_once.
    apply (step_event
             {| ui := {| query := [104; 105]%N; currentSuggestion := [];
                         modalContent := None |};
                title := []; transcript := []; suggestions := [];
                inFlight := 0 |}
             ClickSend).
    reflexivity.
Defined.

End QueryFacts.

(** ** Uploading a batch of files *)

Section UploadFacts.
Import Js GeminiService App.

Lemma poll_effects_not_upload (replies : list Reply) (op : Operation) :
  Forall (fun e => isUpload e = false) (fst (poll replies op)).
Proof.
  revert op. induction replies as [|[op'|reason] rest IH]; intros op; simpl;
    destruct (done op); simpl.
  - constructor.
  - repeat constructor.
  - constructor.
  - specialize (IH op'). destruct (poll rest op'). simpl in *.
    repeat constructor. exact IH.
  - constructor.
  - repeat constructor.
Qed.

(** An upload is one submission followed by pauses and status requests. *)
Lemma uploadToRagStore_shape (submission : Reply) (replies : list Reply) :
  exists rest,
    fst (uploadToRagStore submission replies) = Upload :: rest
    /\ Forall (fun e => isUpload e = false) rest.
Proof.
  destruct submission as [op|reason]; simpl.
  - pose proof (poll_effects_not_upload replies op) as H.
    destruct (poll replies op) as [effects outcome]. simpl in *. eauto.
  - exists []. split; [reflexivity|constructor].
Qed.

Lemma submissions_app (e1 e2 : list UploadEvent) :
  submissions (e1 ++ e2) = submissions e1 ++ submissions e2.
Proof.
  induction e1 as [|[c t n|i []] e1 IH]; simpl; rewrite ?IH; reflexivity.
Qed.

Lemma progressReports_app (e1 e2 : list UploadEvent) :
  progressReports (e1 ++ e2) = progressReports e1 ++ progressReports e2.
Proof.
  induction e1 as [|[c t n|i e] e1 IH]; simpl; rewrite ?IH; reflexivity.
Qed.

Lemma submissions_polling (k : nat) (effects : list Effect) :
  Forall (fun e => isUpload e = false) effects ->
  submissions (map (Service k) effects) = []
  /\ progressReports (map (Service k) effects) = [].
Proof.
  induction 1 as [|e effects He _ [IH1 IH2]]; simpl; [auto|].
  destruct e; simpl in He; try discriminate; auto.
Qed.

Lemma sequentialFrom_polling (k : nat) (effects : list Effect)
    (rest : list UploadEvent) :
  Forall (fun e => isUpload e = false) effects ->
  sequentialFrom (Some k) (map (Service k) effects ++ rest)
  = sequentialFrom (Some k) rest.
Proof.
  induction 1 as [|e effects He _ IH]; simpl; [reflexivity|].
  destruct e; simpl in He; try discriminate; rewrite Nat.eqb_refl; exact IH.
Qed.

(** The events of one file, started when [current] was the last file. *)
Lemma sequentialFrom_file (current : option nat) (total : nat)
    (file : File) (submission : Reply) (replies : list Reply)
    (rest : list UploadEvent) :
  sequentialFrom current
    (fileEvents (nextIndex current) total file
       (fst (uploadToRagStore submission replies)) ++ rest)
  = sequentialFrom (Some (nextIndex current)) rest.
Proof.
  destruct (uploadToRagStore_shape submission replies) as [ps [-> Hps]].
  unfold fileEvents. simpl. rewrite Nat.add_1_r, !Nat.eqb_refl. simpl.
  apply sequentialFrom_polling. exact Hps.
Qed.

Lemma uploadFrom_cons (policy : FailurePolicy) (index total : nat)
    (file : File) (files : list File) (remote : nat -> Reply * list Reply) :
  uploadFrom policy index total (file :: files) remote
  = let upload := uploadToRagStore (fst (remote index)) (snd (remote index)) in
    let events := fileEvents index total file (fst upload) in
    let next := uploadFrom policy (S index) total files remote in
    match snd upload, policy with
    | Returned, _ => (events ++ fst next, snd next)
    | Threw _, ContinueBatch =>
        (events ++ fst next, noteFailure index (snd next))
    | Threw reason, AbortBatch => (events, Aborted index reason)
    | StillPolling, _ => (events, InProgress index)
    end.
Proof.
  simpl.
  destruct (uploadToRagStore (fst (remote index)) (snd (remote index)))
    as [effects outcome].
  destruct outcome, policy; simpl; try reflexivity;
    destruct (uploadFrom _ (S index) total files remote); reflexivity.
Qed.

(** However the remote answers and whatever the policy, the batch is
    sequential. *)
Lemma uploadFrom_sequential (policy : FailurePolicy) (current : option nat)
    (total : nat) (files : list File) (remote : nat -> Reply * list Reply) :
  sequentialFrom current
    (fst (uploadFrom policy (nextIndex current) total files remote)) = true.
Proof.
  revert current. induction files as [|file files IH]; intros current.
  - reflexivity.
  - rewrite uploadFrom_cons. cbv zeta.
    destruct (snd (uploadToRagStore _ _)) as [|reason|], policy; cbn [fst];
      first [ rewrite sequentialFrom_file;
              apply (IH (Some (nextIndex current)))
            | rewrite <- (app_nil_r (fileEvents _ _ _ _)), sequentialFrom_file;
              reflexivity ].
Qed.

Lemma isFinished_noteFailure (index : nat) (o : BatchOutcome) :
  isFinished (noteFailure index o) = isFinished o.
Proof. destruct o; reflexivity. Qed.

(** When the orchestrator gets past every file, every file is submitted and
    reported. *)
Lemma uploadFrom_complete (policy : FailurePolicy) (k total : nat)
    (files : list File) (remote : nat -> Reply * list Reply) :
  (forall i, k <= i < k + length files ->
     proceeds policy
       (snd (uploadToRagStore (fst (remote i)) (snd (remote i)))) = true) ->
  isFinished (snd (uploadFrom policy k total files remote)) = true
  /\ submissions (fst (uploadFrom policy k total files remote))
     = seq k (length files)
  /\ progressReports (fst (uploadFrom policy k total files remote))
     = imap (fun i file => (k + i + 1, total, fileName file)) files.
Proof.
  revert k. induction files as [|file files IH]; intros k Hall.
  - auto.
  - rewrite uploadFrom_cons. cbv zeta.
    pose proof (Hall k ltac:(simpl; lia)) as Hk.
    destruct (uploadToRagStore_shape (fst (remote k)) (snd (remote k)))
      as [ps [Hshape Hps]].
    destruct (IH (S k)) as [Hout [Hsub Hprog]].
    { intros i Hi. apply Hall. simpl. lia. }
    destruct (submissions_polling k ps Hps) as [Hs Hp].
    assert (Hevents :
      submissions (fileEvents k total file
                     (fst (uploadToRagStore (fst (remote k)) (snd (remote k))))
                   ++ fst (uploadFrom policy (S k) total files remote))
      = seq k (length (file :: files))
      /\ progressReports
           (fileEvents k total file
              (fst (uploadToRagStore (fst (remote k)) (snd (remote k))))
            ++ fst (uploadFrom policy (S k) total files remote))
         = imap (fun i f => (k + i + 1, total, fileName f)) (file :: files)).
    { rewrite Hshape. unfold fileEvents. split.
      - rewrite submissions_app. simpl. rewrite Hs, Hsub. reflexivity.
      - rewrite progressReports_app. simpl. rewrite Hp, Hprog. simpl.
        rewrite Nat.add_0_r. f_equal.
        apply imap_ext. intros i x _. simpl. f_equal. f_equal. lia. }
    destruct (snd (uploadToRagStore (fst (remote k)) (snd (remote k))))
      as [|reason|], policy; simpl in Hk; try discriminate; cbn [fst snd];
      rewrite ?isFinished_noteFailure; split; tauto.
Qed.

(** The files submitted are the first [n] of the batch, for some [n]:
    every one of them but the last was left behind with its upload ended,
    and all of them are submitted when the batch finishes. *)
Lemma uploadFrom_prefix (policy : FailurePolicy) (k total : nat)
    (files : list File) (remote : nat -> Reply * list Reply) :
  exists n,
    n <= length files
    /\ submissions (fst (uploadFrom policy k total files remote)) = seq k n
    /\ progressReports (fst (uploadFrom policy k total files remote))
       = imap (fun i file => (k + i + 1, total, fileName file)) (take n files)
    /\ (forall i, S i < n ->
          proceeds policy
            (snd (uploadToRagStore (fst (remote (k + i)))
                    (snd (remote (k + i))))) = true)
    /\ (isFinished (snd (uploadFrom policy k total files remote)) = true ->
        n = length files).
Proof.
  revert k. induction files as [|file files IH]; intros k.
  - exists 0. repeat split; auto. intros i Hi. lia.
  - rewrite uploadFrom_cons. cbv zeta.
    destruct (uploadToRagStore_shape (fst (remote k)) (snd (remote k)))
      as [ps [Hshape Hps]].
    destruct (submissions_polling k ps Hps) as [Hs Hp].
    destruct (IH (S k)) as [n [Hle [Hsub [Hprog [Hbefore Hfin]]]]].
    assert (Hgo :
      proceeds policy
        (snd (uploadToRagStore (fst (remote k)) (snd (remote k)))) = true ->
      S n <= length (file :: files)
      /\ submissions
           (fileEvents k total file
              (fst (uploadToRagStore (fst (remote k)) (snd (remote k))))
            ++ fst (uploadFrom policy (S k) total files remote))
         = seq k (S n)
      /\ progressReports
           (fileEvents k total file
              (fst (uploadToRagStore (fst (remote k)) (snd (remote k))))
            ++ fst (uploadFrom policy (S k) total files remote))
         = imap (fun i f => (k + i + 1, total, fileName f))
             (take (S n) (file :: files))
      /\ (forall i, S i < S n ->
            proceeds policy
              (snd (uploadToRagStore (fst (remote (k + i)))
                      (snd (remote (k + i))))) = true)).
    { intros Hk. rewrite Hshape. unfold fileEvents.
      split; [simpl; lia|]. split; [|split].
      - rewrite submissions_app. simpl. rewrite Hs, Hsub. reflexivity.
      - rewrite progressReports_app. simpl. rewrite Hp, Hprog. simpl.
        rewrite Nat.add_0_r. f_equal.
        apply imap_ext. intros i x _. simpl. f_equal. f_equal. lia.
      - intros [|i] Hi.
        + rewrite Nat.add_0_r. exact Hk.
        + replace (k + S i) with (S k + i) by lia. apply Hbefore. lia. }
    assert (Hstop :
      1 <= length (file :: files)
      /\ submissions
           (fileEvents k total file
              (fst (uploadToRagStore (fst (remote k)) (snd (remote k)))))
         = seq k 1
      /\ progressReports
           (fileEvents k total file
              (fst (uploadToRagStore (fst (remote k)) (snd (remote k)))))
         = imap (fun i f => (k + i + 1, total, fileName f))
             (take 1 (file :: files))
      /\ (forall i, S i < 1 ->
            proceeds policy
              (snd (uploadToRagStore (fst (remote (k + i)))
                      (snd (remote (k + i))))) = true)).
    { rewrite Hshape. unfold fileEvents.
      split; [simpl; lia|]. split; [|split].
      - simpl. rewrite Hs. reflexivity.
      - simpl. rewrite Hp, Nat.add_0_r. reflexivity.
      - intros i Hi. lia. }
    destruct (snd (uploadToRagStore (fst (remote k)) (snd (remote k))))
      as [|reason|], policy; cbn [fst snd proceeds] in *;
      rewrite ?isFinished_noteFailure;
      first [ exists (S n); destruct (Hgo eq_refl) as [H1 [H2 [H3 H4]]];
              repeat split; auto; intros Hf; simpl; f_equal; auto
            | exists 1; destruct Hstop as [H1 [H2 [H3 H4]]];
              repeat split; auto; discriminate ].
Qed.

(** C2, amended.  Whatever the remote answers and whatever the policy,
    the orchestrator submits the files one at a time in the order of the
    input: the pauses and status requests of a file all fall between its
    own submission and the next one (no two uploads overlap), a file is
    submitted only when the upload of the file before it has ended
    (completed, or failed under the policy that continues), and so the
    files submitted are the first [n] of the [N], with the progress
    reports [(1, N, name_1), ..., (n, N, name_n)], each made as its file
    starts.  All [N] are submitted when the batch finishes, and it
    finishes when every upload ends. *)
Theorem uploadFiles_one_at_a_time (policy : FailurePolicy)
    (files : list File) (remote : nat -> Reply * list Reply) :
  sequentialFrom None (fst (uploadFiles policy files remote)) = true
  /\ (exists n,
        n <= length files
        /\ submissions (fst (uploadFiles policy files remote)) = seq 0 n
        /\ progressReports (fst (uploadFiles policy files remote))
           = imap (fun i file => (i + 1, length files, fileName file))
               (take n files)
        /\ (forall i, S i < n ->
              proceeds policy
                (snd (uploadToRagStore (fst (remote i)) (snd (remote i))))
              = true)
        /\ (isFinished (snd (uploadFiles policy files remote)) = true ->
            n = length files))
  /\ ((forall i, i < length files ->
         proceeds policy
           (snd (uploadToRagStore (fst (remote i)) (snd (remote i)))) = true) ->
      isFinished (snd (uploadFiles policy files remote)) = true
      /\ submissions (fst (uploadFiles policy files remote))
         = seq 0 (length files)
      /\ progressReports (fst (uploadFiles policy files remote))
         = imap (fun i file => (i + 1, length files, fileName file)) files).
Proof.
  unfold uploadFiles. split; [|split].
  - apply (uploadFrom_sequential policy None).
  - destruct (uploadFrom_prefix policy 0 (length files) files remote)
      as [n H].
    exists n. exact H.
  - intros Hall.
    apply (uploadFrom_complete policy 0 (length files) files remote).
    intros i Hi. apply Hall. lia.
Qed.

(** The scenario of the specification: "a.pdf" (done after one status
    request) then "b.txt" (done at submission) give the reports
    (1, 2, "a.pdf") and (2, 2, "b.txt"). *)
Lemma uploadFiles_one_at_a_time_witness :
  progressReports
    (fst (uploadFiles AbortBatch
            [ {| fileName := [97; 46; 112; 100; 102]%N; fileBytes := [] |};
              {| fileName := [98; 46; 116; 120; 116]%N; fileBytes := [] |} ]
            (fun i =>
               match i with
               | 0 => (Resolved {| done := false; error := None |},
                       [Resolved {| done := true; error := None |}])
               | _ => (Resolved {| done := true; error := None |}, [])
               end)))
  = [ (1, 2, [97; 46; 112; 100; 102]%N);
      (2, 2, [98; 46; 116; 120; 116]%N) ].
Proof.
  apply (uploadFiles_one_at_a_time AbortBatch
           [ {| fileName := [97; 46; 112; 100; 102]%N; fileBytes := [] |};
             {| fileName := [98; 46; 116; 120; 116]%N; fileBytes := [] |} ]
           (fun i =>
              match i with
              | 0 => (Resolved {| done := false; error := None |},
                      [Resolved {| done := true; error := None |}])
              | _ => (Resolved {| done := true; error := None |}, [])
              end)).
  intros [|[|i]] Hi; [reflexivity | reflexivity | simpl in Hi; lia].
Defined.

(** C2 as the specification words it, exactly [N] submissions for [N]
    files, fails when an upload does not end: of two files, the first
    never reported done, only the first is submitted, under either
    policy. *)
Lemma uploadFiles_first_never_done :
  length [ {| fileName := [97]%N; fileBytes := [] |};
           {| fileName := [98]%N; fileBytes := [] |} ] = 2
  /\ submissions
       (fst (uploadFiles ContinueBatch
               [ {| fileName := [97]%N; fileBytes := [] |};
                 {| fileName := [98]%N; fileBytes := [] |} ]
               (fun _ =>
                  (Resolved {| done := false; error := None |},
                   [ Resolved {| done := false; error := None |};
                     Resolved {| done := false; error := None |} ]))))
     = [0]
  /\ snd (uploadFiles ContinueBatch
            [ {| fileName := [97]%N; fileBytes := [] |};
              {| fileName := [98]%N; fileBytes := [] |} ]
            (fun _ =>
               (Resolved {| done := false; error := None |},
                [ Resolved {| done := false; error := None |};
                  Resolved {| done := false; error := None |} ])))
     = InProgress 0.
Proof. repeat split. Qed.

(** A first submission that is rejected: under [AbortBatch] the second
    file is never submitted, under [ContinueBatch] it is. *)
Example uploadFiles_rejected_first :
  submissions
    (fst (uploadFiles AbortBatch
            [ {| fileName := [97]%N; fileBytes := [] |};
              {| fileName := [98]%N; fileBytes := [] |} ]
            (fun i =>
               match i with
               | 0 => (Rejected [110; 101; 116]%N, [])
               | _ => (Resolved {| done := true; error := None |}, [])
               end))) = [0]
  /\ submissions
       (fst (uploadFiles ContinueBatch
               [ {| fileName := [97]%N; fileBytes := [] |};
                 {| fileName := [98]%N; fileBytes := [] |} ]
               (fun i =>
                  match i with
                  | 0 => (Rejected [110; 101; 116]%N, [])
                  | _ => (Resolved {| done := true; error := None |}, [])
                  end))) = [0; 1].
Proof. split; reflexivity. Qed.

End UploadFacts.

(** ** New chat *)

Section NewChatFacts.
Import Js Types App.

Lemma referenceAfter_app (current : option StoreId)
    (c1 c2 : list RemoteCall) :
  referenceAfter current (c1 ++ c2)
  = match referenceAfter current c1 with
    | Some current' => referenceAfter current' c2
    | None => None
    end.
Proof.
  revert current.
  induction c1 as [|[assigned|store] c1 IH]; intros current; simpl.
  - reflexivity.
  - apply IH.
  - destruct current as [c|]; [|reflexivity].
    destruct (store =? c); [apply IH | reflexivity].
Qed.

Lemma newChat_reference (s : Session) :
  referenceAfter (activeStore s) (snd (newChat s)) = Some None.
Proof.
  unfold newChat. simpl. destruct (activeStore s) as [store|]; simpl.
  - rewrite Nat.eqb_refl. reflexivity.
  - reflexivity.
Qed.

Lemma act_storeFree (a : Action) (s : Session) :
  storeFree s -> storeFree (fst (act a s)).
Proof.
  unfold storeFree, act. intros H.
  destruct a, (status s) eqn:E;
    repeat match goal with
           | |- context [if ?b then _ else _] => destruct b
           end;
    cbn [fst newChat withStatus withTranscript status activeStore storeless];
    rewrite ?E; cbn [storeless];
    first [ discriminate | reflexivity | exact H | intros _; reflexivity
          | intros _; apply H; reflexivity ].
Qed.

(** Every action keeps the remote calls in step with the session's
    reference: the store created is the one it then refers to, and the
    store deleted is the one it referred to. *)
Lemma act_reference (a : Action) (s : Session) :
  referenceAfter (activeStore s) (snd (act a s))
  = Some (activeStore (fst (act a s))).
Proof.
  unfold act.
  destruct a, (status s) eqn:E;
    repeat match goal with
           | |- context [if ?b then _ else _] => destruct b
           end;
    try reflexivity; apply newChat_reference.
Qed.

Lemma run_cons (a : Action) (rest : list Action) (s : Session) :
  run (a :: rest) s
  = (fst (run rest (fst (act a s))),
     snd (act a s) ++ snd (run rest (fst (act a s)))).
Proof.
  simpl. destruct (act a s) as [s1 calls1]. simpl.
  destruct (run rest s1) as [s2 calls2]. reflexivity.
Qed.

Lemma run_app (a1 a2 : list Action) (s : Session) :
  run (a1 ++ a2) s
  = (fst (run a2 (fst (run a1 s))),
     snd (run a1 s) ++ snd (run a2 (fst (run a1 s)))).
Proof.
  revert s. induction a1 as [|a a1 IH]; intros s.
  - simpl. destruct (run a2 s). reflexivity.
  - change ((a :: a1) ++ a2) with (a :: (a1 ++ a2)).
    rewrite !run_cons, IH. cbn [fst snd]. rewrite app_assoc. reflexivity.
Qed.

(** Along a run the session refers to the store created last and not
    deleted since, only that store is ever deleted, and there is none in
    the states before the first upload and between chats. *)
Lemma run_reference (actions : list Action) (s : Session) :
  storeFree s ->
  referenceAfter (activeStore s) (snd (run actions s))
  = Some (activeStore (fst (run actions s)))
  /\ storeFree (fst (run actions s)).
Proof.
  revert s. induction actions as [|a rest IH]; intros s Hs.
  - auto.
  - rewrite run_cons. cbn [fst snd].
    rewrite referenceAfter_app, (act_reference a s).
    apply IH. apply act_storeFree. exact Hs.
Qed.

Lemma act_newChat (s : Session) :
  offersNewChat (status s) = true -> act ClickNewChat s = newChat s.
Proof.
  unfold act. destruct (status s); (reflexivity || discriminate).
Qed.

(** C4. Whatever happened in the session before (uploads, failed uploads
    and retries, queries), the remote calls of the session delete no store
    but the one it refers to, and "new chat" deletes that store: the
    deletion is the first remote call it makes, ahead of every store
    created by what is done afterwards.  It clears the transcript and
    returns to [FilesPending] with no store referred to; a second "new
    chat" right after makes no remote call and leaves the session as it
    is: files pending, empty transcript, no store. *)
Theorem newChat_deletes_then_resets (actions later : list Action) :
  referenceAfter None (snd (run actions initial))
  = Some (activeStore (fst (run actions initial)))
  /\ (storeless (status (fst (run actions initial))) = true ->
      activeStore (fst (run actions initial)) = None)
  /\ snd (newChat (fst (run actions initial)))
     = match activeStore (fst (run actions initial)) with
       | Some store => [DeleteStore store]
       | None => []
       end
  /\ referenceAfter None (snd (run actions initial)
                          ++ snd (newChat (fst (run actions initial))))
     = Some None
  /\ fst (newChat (fst (run actions initial))) = cleared
  /\ newChat (fst (newChat (fst (run actions initial)))) = (cleared, [])
  /\ (offersNewChat (status (fst (run actions initial))) = true ->
      run (actions ++ ClickNewChat :: later) initial
      = (fst (run later cleared),
         snd (run actions initial)
         ++ snd (newChat (fst (run actions initial)))
         ++ snd (run later cleared))
      /\ run (actions ++ [ClickNewChat; ClickNewChat]) initial
         = (cleared,
            snd (run actions initial)
            ++ snd (newChat (fst (run actions initial))))).
Proof.
  assert (H0 : storeFree initial) by (intros _; reflexivity).
  destruct (run_reference actions initial H0) as [Href Hfree].
  simpl in Href.
  split; [exact Href|]. split; [exact Hfree|]. split; [reflexivity|].
  split; [rewrite referenceAfter_app, Href; apply newChat_reference|].
  split; [reflexivity|]. split; [reflexivity|].
  intros Hoffer.
  assert (Hrun : forall rest,
    run (actions ++ ClickNewChat :: rest) initial
    = (fst (run rest cleared),
       snd (run actions initial)
       ++ snd (newChat (fst (run actions initial)))
       ++ snd (run rest cleared))).
  { intros rest. rewrite run_app, run_cons.
    rewrite (act_newChat _ Hoffer). reflexivity. }
  split; [apply Hrun|].
  rewrite (Hrun [ClickNewChat]). simpl. rewrite !app_nil_r. reflexivity.
Qed.

(** A failed upload, a retry, a chat, two new chats, another upload: the
    store of the chat is deleted before the next one is created. *)
Example newChat_then_upload :
  snd (run [ SelectKey;
             AddFiles [ {| fileName := [97]%N; fileBytes := [] |} ];
             ConfirmUpload 7; UploadsSettled false;
             ConfirmUpload 8; UploadsSettled true;
             ClickNewChat; ClickNewChat;
             AddFiles [ {| fileName := [98]%N; fileBytes := [] |} ];
             ConfirmUpload 9 ] initial)
  = [CreateStore 7; CreateStore 8; DeleteStore 8; CreateStore 9].
Proof. reflexivity. Qed.

End NewChatFacts.

(** ** Example questions *)

Section SuggestionFacts.
Import Js App.

Lemma splitLines_whitespace (s : JsString) :
  forallb isWhiteSpace s = true ->
  Forall (fun line => forallb isWhiteSpace line = true) (splitLines s).
Proof.
  induction s as [|c rest IH]; simpl.
  - intros _. repeat constructor.
  - intros H. apply andb_prop in H. destruct H as [Hc Hrest].
    specialize (IH Hrest).
    destruct (c =? 10)%N.
    + constructor; [reflexivity | exact IH].
    + destruct (splitLines rest) as [|line lines].
      * repeat constructor. simpl. now rewrite Hc.
      * inversion IH as [|? ? Hline Hlines]; subst.
        constructor; [|exact Hlines]. simpl. now rewrite Hc, Hline.
Qed.

Lemma blank_lines_dropped (lines : list JsString) :
  Forall (fun line => forallb isWhiteSpace line = true) lines ->
  List.filter truthy (map trim lines) = [].
Proof.
  induction 1 as [|line lines Hline _ IH]; simpl; [reflexivity|].
  apply trim_nil_iff in Hline. rewrite Hline. simpl. exact IH.
Qed.

Lemma parseQuestions_nonempty (answer : JsString) (questions : list JsString) :
  parseQuestions answer = Ok questions ->
  Forall (fun q => q <> []) questions.
Proof.
  unfold parseQuestions.
  destruct (List.filter truthy (map trim (splitLines answer)))
    as [|q qs] eqn:E; [discriminate|].
  intros [= <-]. rewrite <- E.
  apply List.Forall_forall. intros x Hx.
  apply filter_In in Hx. destruct Hx as [_ Hx].
  destruct x; [discriminate Hx | discriminate].
Qed.

(** C6. Suggestion generation never hands an error on: a failed request,
    an answer that does not parse, an empty or blank answer all give the
    empty sequence, and what it does return are non-empty questions. *)
Theorem generateExampleQuestions_best_effort (reply : Result JsString) :
  (forall reason,
     requestQuestions reply = Err reason ->
     generateExampleQuestions reply = [])
  /\ (forall reason,
        reply = Err reason -> generateExampleQuestions reply = [])
  /\ (forall answer,
        reply = Ok answer ->
        forallb isWhiteSpace answer = true ->
        generateExampleQuestions reply = [])
  /\ Forall (fun q => q <> []) (generateExampleQuestions reply).
Proof.
  unfold generateExampleQuestions. split; [|split; [|split]].
  - intros reason ->. reflexivity.
  - intros reason ->. reflexivity.
  - intros answer -> Hblank. simpl. unfold parseQuestions.
    rewrite (blank_lines_dropped _ (splitLines_whitespace answer Hblank)).
    reflexivity.
  - destruct reply as [answer|reason]; simpl; [|constructor].
    destruct (parseQuestions answer) as [questions|reason] eqn:E;
      [|constructor].
    apply (parseQuestions_nonempty answer questions E).
Qed.

(** An empty answer, and a failed request, give no suggestions. *)
Lemma generateExampleQuestions_best_effort_witness :
  generateExampleQuestions (Ok []) = []
  /\ generateExampleQuestions (Err [110; 101; 116]%N) = [].
Proof.
  split.
  - apply (generateExampleQuestions_best_effort (Ok [])) with (answer := []);
      reflexivity.
  - apply (generateExampleQuestions_best_effort (Err [110; 101; 116]%N))
      with (reason := [110; 101; 116]%N).
    reflexivity.
Defined.

(** Two lines with a blank one between them give two questions. *)
Example generateExampleQuestions_lines :
  generateExampleQuestions (Ok [32; 97; 63; 10; 32; 10; 98; 63]%N)
  = [[97; 63]; [98; 63]]%N.
Proof. reflexivity. Qed.

End SuggestionFacts.

(** ** The welcome screen: selecting files *)

Section WelcomeFacts.
Import Js JsLib WelcomeScreen.

Lemma filterIndexed_past {A : Type} (target from : nat) (l : list A) :
  target < from ->
  filterIndexed (fun _ index => negb (index =? target)) from l = l.
Proof.
  revert from. induction l as [|x l IH]; intros from Hlt; cbn [filterIndexed].
  - reflexivity.
  - destruct (Nat.eqb_spec from target) as [->|_]; [lia|].
    cbn [negb]. f_equal. apply IH. lia.
Qed.

Lemma filterIndexed_delete {A : Type} (i from : nat) (l : list A) :
  filterIndexed (fun _ index => negb (index =? from + i)) from l = delete i l.
Proof.
  revert i from. induction l as [|x l IH]; intros i from; cbn [filterIndexed].
  - now destruct i.
  - destruct (Nat.eqb_spec from (from + i)) as [Heq|Hne]; cbn [negb].
    + assert (i = 0) as -> by lia. rewrite Nat.add_0_r.
      cbn [delete list_delete]. apply filterIndexed_past. lia.
    + destruct i as [|i]; [lia|]. cbn [delete list_delete]. f_equal.
      replace (from + S i) with (S from + i) by lia. apply IH.
Qed.

Lemma handleRemoveFile_delete (i : nat) (st : State) :
  files (handleRemoveFile i st) = delete i (files st).
Proof. unfold handleRemoveFile. simpl. apply (filterIndexed_delete i 0). Qed.

(** X1. Removing the file at an index drops exactly that file: the files
    before it and after it stay, in their order.  An index past the end of
    the selection changes nothing. *)
Theorem handleRemoveFile_removes_one (i : nat) (st : State) :
  (i < length (files st) ->
   files (handleRemoveFile i st) = take i (files st) ++ drop (S i) (files st)
   /\ S (length (files (handleRemoveFile i st))) = length (files st))
  /\ (length (files st) <= i -> handleRemoveFile i st = st).
Proof.
  split.
  - intros Hi. rewrite handleRemoveFile_delete, delete_take_drop.
    split; [reflexivity|].
    rewrite length_app, length_take, length_drop. lia.
  - intros Hi.
    assert (H : files (handleRemoveFile i st) = files st).
    { rewrite handleRemoveFile_delete, delete_take_drop.
      rewrite take_ge by lia. rewrite drop_ge by lia. apply app_nil_r. }
    unfold handleRemoveFile in *. simpl in H. rewrite H.
    destruct st; reflexivity.
Qed.

Lemma handleRemoveFile_removes_one_witness :
  files (handleRemoveFile 1
           {| files := [ {| name := [97]%N; mimeType := []; content := [] |};
                         {| name := [98]%N; mimeType := []; content := [] |};
                         {| name := [99]%N; mimeType := []; content := [] |} ];
              isDragging := false; loadingSample := None |})
  = [ {| name := [97]%N; mimeType := []; content := [] |};
      {| name := [99]%N; mimeType := []; content := [] |} ].
Proof.
  apply (handleRemoveFile_removes_one 1
           {| files := [ {| name := [97]%N; mimeType := []; content := [] |};
                         {| name := [98]%N; mimeType := []; content := [] |};
                         {| name := [99]%N; mimeType := []; content := [] |} ];
              isDragging := false; loadingSample := None |}).
  simpl. lia.
Defined.

(** X2. Files picked are appended after the ones already selected, and
    removing the [j]-th of the files just picked leaves the earlier
    selection as it was; picking one file and removing it gives the
    selection back. *)
Theorem pick_then_remove (added : list File) (j : nat) (st : State) :
  files (handleFileChange (Some added) st) = files st ++ added
  /\ files (handleRemoveFile (length (files st) + j)
              (handleFileChange (Some added) st))
     = files st ++ delete j added
  /\ (forall file,
        added = [file] ->
        handleRemoveFile (length (files st))
          (handleFileChange (Some added) st) = st).
Proof.
  split; [reflexivity|]. split.
  - rewrite handleRemoveFile_delete. simpl.
    rewrite !delete_take_drop.
    rewrite take_app_ge by lia. rewrite drop_app_ge by lia.
    replace (length (files st) + j - length (files st)) with j by lia.
    replace (S (length (files st) + j) - length (files st)) with (S j) by lia.
    now rewrite app_assoc.
  - intros file ->.
    assert (H : files (handleRemoveFile (length (files st))
                         (handleFileChange (Some [file]) st)) = files st).
    { rewrite handleRemoveFile_delete. simpl.
      rewrite delete_take_drop.
      rewrite take_app_ge by lia. rewrite drop_app_ge by lia.
      rewrite Nat.sub_diag.
      replace (S (length (files st)) - length (files st)) with 1 by lia.
      simpl. now rewrite !app_nil_r. }
    unfold handleRemoveFile, handleFileChange in *. simpl in *. rewrite H.
    destruct st; reflexivity.
Qed.

(** A file picked into an empty selection and removed again. *)
Lemma pick_then_remove_witness :
  handleRemoveFile 0
    (handleFileChange
       (Some [ {| name := [97]%N; mimeType := []; content := [] |} ])
       {| files := []; isDragging := false; loadingSample := None |})
  = {| files := []; isDragging := false; loadingSample := None |}.
Proof.
  exact (proj2 (proj2 (pick_then_remove
           [ {| name := [97]%N; mimeType := []; content := [] |} ] 0
           {| files := []; isDragging := false; loadingSample := None |}))
         _ eq_refl).
Defined.

(** *** Sample documents *)

Lemma startsWith_app (needle rest : JsString) :
  startsWith needle (needle ++ rest) = true.
Proof.
  induction needle as [|c needle IH]; simpl.
  - reflexivity.
  - now rewrite N.eqb_refl, IH.
Qed.


(** X3. However the fetch of a sample ends, the loading marker is cleared
    and the drag state is left alone.  When the download succeeds (an OK
    response whose blob can be read), one file, named as the sample and
    typed as the blob, is appended after the files selected by then, and
    nothing is reported.  Every other outcome leaves the selection as it
    was and is logged first of all. *)
Theorem selectSampleSettle_outcomes (sample fileName : JsString)
    (outcome : FetchOutcome) (st : State) :
  loadingSample (fst (selectSampleSettle sample fileName outcome st)) = None
  /\ isDragging (fst (selectSampleSettle sample fileName outcome st))
     = isDragging st
  /\ match outcome with
     | FetchResponse true _ (BlobResolved blobType blobContent) =>
         files (fst (selectSampleSettle sample fileName outcome st))
         = files st ++ [ {| name := fileName; mimeType := blobType;
                            content := blobContent |} ]
         /\ snd (selectSampleSettle sample fileName outcome st) = []
     | _ =>
         files (fst (selectSampleSettle sample fileName outcome st))
         = files st
         /\ head (snd (selectSampleSettle sample fileName outcome st))
            = Some ConsoleError
     end.
Proof.
  unfold selectSampleSettle.
  destruct outcome as [e|ok statusText blob];
    [|destruct ok; [destruct blob as [blobType blobContent|e]|]];
    simpl; repeat split; reflexivity.
Qed.



Lemma sample_names_truthy (doc : SampleDocument) :
  In doc sampleDocuments -> truthy (docName doc) = true.
Proof. intros [<-|[<-|[]]]; reflexivity. Qed.

Lemma step_keeps_oneDownload (s s' : Screen) :
  step s s' -> oneDownload s -> oneDownload s'.
Proof.
  unfold oneDownload.
  intros Hstep [Hle Hmark].
  destruct Hstep as [s picked|s dropped|s|s|s i|s doc Hdoc|s doc outcome Hpos];
    simpl.
  - split; [exact Hle|]. intros H. specialize (Hmark H).
    destruct picked; exact Hmark.
  - split; [exact Hle|]. intros H. specialize (Hmark H).
    destruct dropped; exact Hmark.
  - split; [exact Hle|]. intros H. specialize (Hmark H).
    unfold handleDragOver. destruct (negb (isDragging (state s))); exact Hmark.
  - split; [exact Hle|]. exact Hmark.
  - split; [exact Hle|]. exact Hmark.
  - unfold selectSampleStart.
    destruct (Nat.eq_dec (downloads s) 0) as [Hzero|Hpos].
    + destruct (truthyOpt (loadingSample (state s))); simpl.
      * split; [exact Hle | intros H; lia].
      * rewrite Hzero. split; [lia|]. intros _.
        apply sample_names_truthy, Hdoc.
    + rewrite Hmark by lia. split; [exact Hle | exact Hmark].
  - split; [lia|]. intros H. lia.
Qed.

(** X5. Sample documents are downloaded one at a time: while a download is
    pending, clicking a sample starts nothing, whatever else is done on the
    screen in between. *)
Theorem one_sample_download_at_a_time (s0 s : Screen) :
  downloads s0 = 0 ->
  rtc step s0 s ->
  downloads s <= 1.
Proof.
  intros H0 Hrun.
  assert (H : oneDownload s0) by (unfold oneDownload; split; lia).
  clear H0. induction Hrun as [s|s1 s2 s3 Hstep _ IH].
  - apply H.
  - apply IH. exact (step_keeps_oneDownload s1 s2 Hstep H).
Qed.

(** Two clicks in a row: the second starts nothing. *)
Lemma one_sample_download_at_a_time_witness :
  downloads
    {| state := {| files := []; isDragging := false;
                   loadingSample := Some (docName hyundaiManual) |};
       downloads := 1 |} <= 1.
Proof.
  apply (one_sample_download_at_a_time
           {| state := {| files := []; isDragging := false;
                          loadingSample := None |};
              downloads := 0 |}).
  - reflexivity.
  - eapply rtc_l.
    + apply (step_sample_click _ hyundaiManual). left. reflexivity.
    + eapply rtc_l.
      * apply (step_sample_click _ lgWasherManual). right. left. reflexivity.
      * apply rtc_refl.
Defined.

End WelcomeFacts.

(** ** The rotation of example questions *)

Section RotationFacts.
Import Js SuggestionEffect.

Lemma tick_index (qs : list JsString) (k : nat) :
  qs <> [] ->
  Nat.iter k (tick qs) (mount qs)
  = {| suggestionIndex := k mod length qs;
       shown := qs !! (k mod length qs);
       ticking := true |}.
Proof.
  intros Hne.
  assert (Hlen : length qs <> 0) by (destruct qs; simpl; congruence).
  induction k as [|k IH].
  - unfold mount. simpl. destruct (Nat.eqb_spec (length qs) 0); [contradiction|].
    rewrite Nat.Div0.mod_0_l. reflexivity.
  - rewrite Nat.iter_succ, IH. unfold tick. cbn [ticking suggestionIndex].
    cbv zeta.
    assert (E : (k mod length qs + 1) mod length qs = S k mod length qs).
    { rewrite Nat.Div0.add_mod_idemp_l. f_equal. lia. }
    rewrite E. reflexivity.
Qed.

(** X6. With at least one example question, the suggestion shown after [k]
    ticks of the interval is question number [k mod n] of the [n] given: an
    element of the list (never [undefined]), the questions come in their
    order, each of them within the first [n] ticks, and the cycle starts
    over after the last one. *)
Theorem suggestions_rotate_in_order (qs : list JsString) (k : nat) :
  qs <> [] ->
  shown (Nat.iter k (tick qs) (mount qs)) = qs !! (k mod length qs)
  /\ (exists q, shown (Nat.iter k (tick qs) (mount qs)) = Some q /\ In q qs)
  /\ shown (Nat.iter (k + length qs) (tick qs) (mount qs))
     = shown (Nat.iter k (tick qs) (mount qs))
  /\ (forall i q, qs !! i = Some q ->
        shown (Nat.iter i (tick qs) (mount qs)) = Some q).
Proof.
  intros Hne.
  assert (Hlen : length qs <> 0) by (destruct qs; simpl; congruence).
  split; [|split; [|split]].
  - rewrite (tick_index qs k Hne). reflexivity.
  - rewrite (tick_index qs k Hne). simpl.
    destruct (lookup_lt_is_Some_2 qs (k mod length qs)) as [q Hq].
    { apply Nat.mod_upper_bound. exact Hlen. }
    exists q. split; [exact Hq|].
    apply list_elem_of_In. eapply list_elem_of_lookup_2. exact Hq.
  - rewrite !(tick_index qs _ Hne). simpl.
    replace (k + length qs) with (k + 1 * length qs) by lia.
    rewrite Nat.Div0.mod_add. reflexivity.
  - intros i q Hq. rewrite (tick_index qs i Hne). simpl.
    rewrite Nat.mod_small; [exact Hq|].
    eapply lookup_lt_Some. exact Hq.
Qed.

(** Three questions: the fourth tick shows the second one again. *)
Lemma suggestions_rotate_in_order_witness :
  shown (Nat.iter 4 (tick [[97]; [98]; [99]]%N) (mount [[97]; [98]; [99]]%N))
  = Some [98]%N.
Proof.
  assert (Hne : [[97]; [98]; [99]]%N <> []) by discriminate.
  exact (proj1 (suggestions_rotate_in_order [[97]; [98]; [99]]%N 4 Hne)).
Defined.

End RotationFacts.

(** ** The chat page: what loading freezes, what the modal shows *)

Section ChatUiFacts.
Import Js Types ChatInterface ChatUi.

(** X7. While a query is loading, typing is disabled and the form cannot
    be submitted, so under every event the page delivers but one the text
    of the input stays as it is.  The one is a click on a suggestion
    button: the render no longer asks for the button, but it leaves the
    page by an exit animation during which it can still be clicked, and
    the click puts the suggestion the button shows into the input. *)
Theorem query_while_loading (p : Props) (st : State) (e : Event) :
  isQueryLoading p = true ->
  enabled p st e = true ->
  suggestionShown p st = false
  /\ query (fst (dispatch p e st))
     = match e with
       | ClickSuggestion shown => shown
       | _ => query st
       end.
Proof.
  intros Hload Hen. split.
  { unfold suggestionShown. rewrite Hload. reflexivity. }
  unfold enabled in Hen. apply andb_prop in Hen. destruct Hen as [_ Hen].
  destruct e as [v| | |shown| |i j|]; simpl in *.
  - unfold inputDisabled in Hen. rewrite Hload in Hen. discriminate.
  - unfold inputDisabled in Hen. rewrite Hload in Hen. discriminate.
  - unfold sendDisabled in Hen. rewrite Hload in Hen. discriminate.
  - reflexivity.
  - reflexivity.
  - destruct (sourceButtonAt p i j); reflexivity.
  - reflexivity.
Qed.

(** Loading, with a suggestion button on its way out: a click on it
    replaces the typed text. *)
Lemma query_while_loading_witness :
  query (fst (dispatch
                {| documentName := []; history := [];
                   isQueryLoading := true; exampleQuestions := [] |}
                (ClickSuggestion [97; 63]%N)
                {| query := [104]%N; currentSuggestion := [97; 63]%N;
                   modalContent := None |}))
  = [97; 63]%N.
Proof.
  apply (query_while_loading
           {| documentName := []; history := [];
              isQueryLoading := true; exampleQuestions := [] |}
           {| query := [104]%N; currentSuggestion := [97; 63]%N;
              modalContent := None |}
           (ClickSuggestion [97; 63]%N)); reflexivity.
Defined.

Lemma sourceButtonAt_cited (p : Props) (i j : nat) (b : SourceButton) :
  sourceButtonAt p i j = Some b -> citedIn p (onClickText b).
Proof.
  unfold sourceButtonAt, citedIn.
  destruct (renders p); [|discriminate].
  destruct (history p !! i) as [message|] eqn:Hi; [|discriminate].
  simpl. unfold renderSources.
  destruct (role message) eqn:Hrole; [discriminate|].
  destruct (groundingChunks message) as [chunks|] eqn:Hc; [|discriminate].
  destruct (0 <? length chunks); [|discriminate].
  simpl. rewrite renderChunks_lookup.
  destruct (chunks !! j) as [chunk|] eqn:Hj; [|discriminate].
  simpl. destruct (displayableText chunk) as [t|] eqn:E.
  - rewrite (renderChunk_displayable _ _ _ E). simpl. intros [= <-]. simpl.
    exists i, j, message, chunks, chunk. auto.
  - rewrite (renderChunk_not_displayable _ _ E). discriminate.
Qed.

Lemma uiStep_keeps_modalCited (p : Props) (st st' : State) :
  uiStep p st st' -> modalCited p st -> modalCited p st'.
Proof.
  unfold modalCited.
  intros [[e [Hen ->]]|[q ->]] H; [|exact H].
  unfold enabled in Hen. apply andb_prop in Hen. destruct Hen as [_ Hen].
  destruct e as [v| | |shown| |i j|]; simpl in *; try exact H.
  - unfold handleSubmit. destruct (truthy (trim (query st))); exact H.
  - unfold handleSubmit. destruct (truthy (trim (query st))); exact H.
  - destruct (sourceButtonAt p i j) as [b|] eqn:Hb; [|discriminate].
    simpl. apply (sourceButtonAt_cited p i j b Hb).
  - exact I.
Qed.

(** X8. Over a given transcript, whatever is done on the page, the source
    modal only ever shows the displayable text of a grounding chunk of a
    model message of that transcript. *)
Theorem modal_shows_cited_text (p : Props) (st0 st : State) (t : JsString) :
  modalContent st0 = None ->
  rtc (uiStep p) st0 st ->
  modalContent st = Some t ->
  citedIn p t.
Proof.
  intros H0 Hrun Ht.
  assert (H : modalCited p st0) by (unfold modalCited; now rewrite H0).
  clear H0.
  assert (Hst : modalCited p st).
  { induction Hrun as [s|s1 s2 s3 Hstep _ IH]; [exact H|].
    apply IH; [exact Ht|]. exact (uiStep_keeps_modalCited p s1 s2 Hstep H). }
  unfold modalCited in Hst. rewrite Ht in Hst. exact Hst.
Qed.

(** One model message with one chunk; its source button is clicked. *)
Lemma modal_shows_cited_text_witness :
  citedIn
    {| documentName := [];
       history :=
         [ {| role := model; parts := [ {| partText := [65]%N |} ];
              groundingChunks :=
                Some [ {| retrievedContext :=
                            Some {| text := Some [98]%N |} |} ] |} ];
       isQueryLoading := false; exampleQuestions := [] |}
    [98]%N.
Proof.
  apply (modal_shows_cited_text
           {| documentName := [];
              history :=
                [ {| role := model; parts := [ {| partText := [65]%N |} ];
                     groundingChunks :=
                       Some [ {| retrievedContext :=
                                   Some {| text := Some [98]%N |} |} ] |} ];
              isQueryLoading := false; exampleQuestions := [] |}
           {| query := []; currentSuggestion := []; modalContent := None |}
           {| query := []; currentSuggestion := [];
              modalContent := Some [98]%N |}).
  - reflexivity.
  - apply rtc_once. left. exists (ClickSource 0 0).
    split; reflexivity.
  - reflexivity.
Defined.

End ChatUiFacts.

(** ** Using a suggestion *)

Section SuggestionFacts2.
Import Js Types ChatInterface.

(** X9. A click on a suggestion button copies the suggestion the button
    shows into the input as it is, and sends nothing.  If no query is
    loading and the suggestion is not blank, the send button is then
    enabled and sends exactly the suggestion, clearing the input; if a
    query is loading (the button was on its way out) or the suggestion is
    blank (white space only), the send button is disabled. *)
Theorem suggestion_then_send (p : Props) (st : State) (shown : JsString) :
  enabled p st (ClickSuggestion shown) = true ->
  dispatch p (ClickSuggestion shown) st = (setQuery shown st, [])
  /\ query (fst (dispatch p (ClickSuggestion shown) st)) = shown
  /\ (isQueryLoading p = false -> trim shown <> [] ->
      enabled p (fst (dispatch p (ClickSuggestion shown) st)) ClickSend = true
      /\ dispatch p ClickSend (fst (dispatch p (ClickSuggestion shown) st))
         = (setQuery [] (fst (dispatch p (ClickSuggestion shown) st)),
            [SendMessage shown]))
  /\ (isQueryLoading p = true \/ trim shown = [] ->
      sendDisabled p (fst (dispatch p (ClickSuggestion shown) st)) = true
      /\ enabled p (fst (dispatch p (ClickSuggestion shown) st)) ClickSend
         = false).
Proof.
  intros Hen. unfold enabled in Hen. apply andb_prop in Hen.
  destruct Hen as [Hp _].
  split; [reflexivity|]. split; [reflexivity|]. split.
  - intros Hload Hne. unfold enabled. rewrite Hp. simpl.
    unfold sendDisabled. simpl. rewrite Hload.
    destruct (trim shown) as [|c t] eqn:E; [contradiction|].
    split; [reflexivity|].
    unfold handleSubmit. simpl. rewrite E. reflexivity.
  - intros Hor.
    assert (H : sendDisabled p (setQuery shown st) = true).
    { unfold sendDisabled. simpl. destruct Hor as [Hload|Hblank].
      - rewrite Hload. reflexivity.
      - rewrite Hblank. apply orb_true_r. }
    simpl. split; [exact H|].
    unfold enabled. simpl. rewrite H. apply andb_false_r.
Qed.

Lemma suggestion_then_send_witness :
  snd (dispatch
         {| documentName := []; history := [];
            isQueryLoading := false; exampleQuestions := [[97; 63]%N] |}
         ClickSend
         (fst (dispatch
                 {| documentName := []; history := [];
                    isQueryLoading := false;
                    exampleQuestions := [[97; 63]%N] |}
                 (ClickSuggestion [97; 63]%N)
                 {| query := [120]%N; currentSuggestion := [97; 63]%N;
                    modalContent := None |})))
  = [SendMessage [97; 63]%N].
Proof.
  pose proof (suggestion_then_send
    {| documentName := []; history := [];
       isQueryLoading := false; exampleQuestions := [[97; 63]%N] |}
    {| query := [120]%N; currentSuggestion := [97; 63]%N;
       modalContent := None |} [97; 63]%N eq_refl) as [_ [_ [H _]]].
  assert (Hne : trim [97; 63]%N <> []) by discriminate.
  destruct (H eq_refl Hne) as [_ Hsend]. rewrite Hsend. reflexivity.
Defined.

End SuggestionFacts2.

(** ** The shape of an upload *)

Section UploadShapeFacts.
Import Js GeminiService UploadTiming.

Lemma poll_shape (replies : list Reply) (op : Operation) :
  fst (poll replies op) = rounds (polls (fst (poll replies op)))
  /\ match snd (poll replies op) with
     | StillPolling => polls (fst (poll replies op)) = S (length replies)
     | _ => polls (fst (poll replies op)) <= length replies
     end.
Proof.
  revert op. induction replies as [|[op'|reason] rest IH]; intros op; simpl;
    destruct (done op); unfold polls; simpl;
    try (split; [reflexivity | lia]).
  specialize (IH op'). destruct (poll rest op') as [effects outcome].
  unfold polls in IH. simpl in *. destruct IH as [IH1 IH2].
  split; [f_equal; f_equal; exact IH1|].
  destruct outcome; lia.
Qed.

Lemma waited_rounds (n : nat) : waited (rounds n) = (3000 * N.of_nat n)%N.
Proof.
  induction n as [|n IH].
  - reflexivity.
  - cbn [rounds round app waited]. rewrite IH. lia.
Qed.

(** X10. Every run of the upload, however the remote answers, is one
    submission followed by whole rounds of a 3000 ms pause and a status
    request: nothing is asked before the submission, nothing is submitted
    twice, no pause goes without its request, and the time spent waiting
    is 3000 ms per request.  A run that has ended made at most one
    request per reply; a run still polling is exactly one request ahead of
    the replies, so at most one request is unanswered at any time. *)
Theorem uploadToRagStore_rounds (submission : Reply) (replies : list Reply) :
  fst (uploadToRagStore submission replies)
  = Upload :: rounds (polls (fst (uploadToRagStore submission replies)))
  /\ waited (fst (uploadToRagStore submission replies))
     = (3000 * N.of_nat (polls (fst (uploadToRagStore submission replies))))%N
  /\ match snd (uploadToRagStore submission replies) with
     | StillPolling =>
         polls (fst (uploadToRagStore submission replies))
         = S (length replies)
     | _ =>
         polls (fst (uploadToRagStore submission replies)) <= length replies
     end.
Proof.
  assert (H : fst (uploadToRagStore submission replies)
              = Upload :: rounds (polls (fst (uploadToRagStore submission replies)))
              /\ match snd (uploadToRagStore submission replies) with
                 | StillPolling =>
                     polls (fst (uploadToRagStore submission replies))
                     = S (length replies)
                 | _ =>
                     polls (fst (uploadToRagStore submission replies))
                     <= length replies
                 end).
  { destruct submission as [op|reason]; simpl.
    - pose proof (poll_shape replies op) as [H1 H2].
      destruct (poll replies op) as [effects outcome]. simpl in *.
      unfold polls in *. simpl. split; [f_equal; exact H1 | exact H2].
    - unfold polls. simpl. split; [reflexivity | lia]. }
  destruct H as [Hshape Hle]. split; [exact Hshape|]. split; [|exact Hle].
  rewrite Hshape at 1. cbn [waited]. apply waited_rounds.
Qed.

End UploadShapeFacts.

(** ** The progress bar at its edges *)

Section ProgressEdgeFacts.
Import ProgressBar.
Open Scope float_scope.

Lemma SFcompare_refl_finite (sg : bool) (m : positive) (e : Z) :
  SFcompare (S754_finite sg m e) (S754_finite sg m e) = Some Eq.
Proof.
  simpl. rewrite Z.compare_refl, Pos.compare_cont_refl.
  destruct sg; reflexivity.
Qed.

Lemma is_nan_spec (x : float) :
  is_nan x = true -> Prim2SF x = S754_nan.
Proof.
  unfold is_nan. rewrite FloatAxioms.eqb_spec. unfold SFeqb.
  destruct (Prim2SF x) as [sg|sg| |sg m e]; try reflexivity.
  - discriminate.
  - destruct sg; discriminate.
  - rewrite SFcompare_refl_finite. discriminate.
Qed.

Lemma nan_is_nan (x : float) :
  Prim2SF x = S754_nan -> is_nan x = true.
Proof.
  intros H. unfold is_nan. rewrite FloatAxioms.eqb_spec, H. reflexivity.
Qed.

(** X11. The guard of the fill percentage is on [total] alone.  A total
    that is NaN or negative gives 0, like a zero total.  A NaN progress
    over a positive total is not caught: the width is NaN. *)
Theorem percentage_edges (progress total : float) :
  (is_nan total = true -> percentage progress total = 0)
  /\ ((total <? 0) = true -> percentage progress total = 0)
  /\ (is_nan progress = true -> (0 <? total) = true ->
      is_nan (percentage progress total) = true).
Proof.
  unfold percentage. split; [|split].
  - intros H. apply is_nan_spec in H.
    rewrite FloatAxioms.ltb_spec, H. reflexivity.
  - rewrite !FloatAxioms.ltb_spec.
    change (Prim2SF 0) with (S754_zero false).
    destruct (Prim2SF total) as [sg|sg| |sg m e]; simpl; try discriminate.
    + destruct sg; [reflexivity | discriminate].
    + destruct sg; [reflexivity | discriminate].
  - intros Hnan Hpos. rewrite Hpos. apply is_nan_spec in Hnan.
    apply nan_is_nan.
    rewrite FloatAxioms.mul_spec, FloatAxioms.div_spec, Hnan. reflexivity.
Qed.

Lemma percentage_edges_witness :
  percentage 1 nan = 0
  /\ percentage 1 (-2) = 0
  /\ is_nan (percentage nan 2) = true.
Proof.
  split; [|split].
  - apply (proj1 (percentage_edges 1 nan)). reflexivity.
  - apply (proj1 (proj2 (percentage_edges 1 (-2)))). reflexivity.
  - apply (proj2 (proj2 (percentage_edges nan 2))); reflexivity.
Defined.

End ProgressEdgeFacts.

(** ** Markdown *)

Section MarkdownSample.
Import Js JsLib Html Markdown.
Import Stdlib.Strings.String.

Example renderMarkdown_sample :
  renderMarkdown (str "**a** b" ++ [10%N] ++ str "1. x" ++ [10%N] ++ str "2. `y`"
                  ++ [10%N] ++ str "- z")
  = pOpen ++ strongOpen ++ str "a" ++ strongClose ++ str " b" ++ pClose
    ++ olOpen ++ liOpen ++ str "x" ++ liClose
    ++ liOpen ++ codeOpen ++ str "y" ++ codeClose ++ liClose ++ olClose
    ++ ulOpen ++ liOpen ++ str "z" ++ liClose ++ ulClose.
Proof. vm_compute. reflexivity. Qed.

(** Stars next to a pair of double stars change what is matched: the
    first match from the left is taken, and what is left of the stars goes
    to the emphasis pass. *)
Example inline_neighbouring_stars :
  inline (str "** **x**")
  = strongOpen ++ str " " ++ strongClose ++ str "x" ++ emOpen ++ emClose
  /\ inline (str "***x**") = strongOpen ++ str "*x" ++ strongClose
  /\ inline (str "a **x** b **y**")
     = str "a " ++ strongOpen ++ str "x" ++ strongClose
       ++ str " b " ++ strongOpen ++ str "y" ++ strongClose.
Proof. vm_compute. auto. Qed.

End MarkdownSample.

Section MarkdownFacts.
Import Js JsLib Html Markdown.

(** *** Lines without inline markup *)

Lemma plain_cons (c : N) (s : JsString) :
  plain (c :: s) = true -> isMarkup c = false /\ plain s = true.
Proof.
  unfold plain. simpl. intros H. apply andb_prop in H. destruct H as [Hc Hs].
  apply negb_true_iff in Hc. auto.
Qed.

Lemma isMarkup_false (c : N) :
  isMarkup c = false -> c <> 42%N /\ c <> 95%N /\ c <> 96%N.
Proof.
  unfold isMarkup. intros H.
  apply orb_false_elim in H. destruct H as [H H96].
  apply orb_false_elim in H. destruct H as [H42 H95].
  apply N.eqb_neq in H42, H95, H96. auto.
Qed.

Lemma matchStrong_plain (s : JsString) :
  plain s = true -> matchStrong s = None.
Proof.
  destruct s as [|c s]; [reflexivity|]. intros H.
  apply plain_cons in H. destruct H as [Hc _].
  apply isMarkup_false in Hc. destruct Hc as [H42 [H95 _]].
  unfold matchStrong, delimited.
  change stars with [42; 42]%N. change underscores with [95; 95]%N.
  cbn [startsWith].
  destruct (N.eqb_spec 42 c); [congruence|].
  destruct (N.eqb_spec 95 c); [congruence|]. reflexivity.
Qed.

Lemma matchEm_plain (s : JsString) :
  plain s = true -> matchEm s = None.
Proof.
  destruct s as [|c s]; [reflexivity|]. intros H.
  apply plain_cons in H. destruct H as [Hc _].
  apply isMarkup_false in Hc. destruct Hc as [H42 [H95 _]].
  unfold matchEm, delimited.
  change star with [42]%N. change underscore with [95]%N.
  cbn [startsWith].
  destruct (N.eqb_spec 42 c); [congruence|].
  destruct (N.eqb_spec 95 c); [congruence|]. reflexivity.
Qed.

Lemma matchCode_plain (s : JsString) :
  plain s = true -> matchCode s = None.
Proof.
  destruct s as [|c s]; [reflexivity|]. intros H.
  apply plain_cons in H. destruct H as [Hc _].
  apply isMarkup_false in Hc. destruct Hc as [_ [_ H96]].
  unfold matchCode.
  destruct c as [|p]; [reflexivity|].
  repeat (destruct p as [p|p|]; try reflexivity). congruence.
Qed.

Lemma replaceFrom_plain (matchAt : JsString -> option (JsString * nat))
    (wrap : JsString -> JsString) (s : JsString) :
  (forall s', plain s' = true -> matchAt s' = None) ->
  plain s = true ->
  replaceFrom matchAt wrap 0 s = s.
Proof.
  intros Hnone. induction s as [|c s IH]; intros Hs; [reflexivity|].
  cbn [replaceFrom]. rewrite (Hnone _ Hs).
  apply plain_cons in Hs. destruct Hs as [_ Hs]. now rewrite IH.
Qed.

Lemma inline_plain (s : JsString) : plain s = true -> inline s = s.
Proof.
  intros H. unfold inline, replaceAll.
  rewrite (replaceFrom_plain matchStrong _ s matchStrong_plain H).
  rewrite (replaceFrom_plain matchEm _ s matchEm_plain H).
  apply (replaceFrom_plain matchCode _ s matchCode_plain H).
Qed.

(** *** The loop, line by line *)

Lemma step_classify (r : Renderer) (rawLine : JsString) :
  step r rawLine
  = match classify rawLine with
    | Item t item => listLine t item r
    | Text line =>
        {| html := html (flushList r);
           listType := listType (flushList r);
           paraBuffer :=
             paraBuffer (flushList r)
             ++ (if truthy (paraBuffer (flushList r)) then br else [])
             ++ line |}
    | Blank => flushPara (flushList r)
    end.
Proof.
  unfold step, classify. cbv zeta.
  destruct (matchOl (inline rawLine)); [reflexivity|].
  destruct (matchUl (inline rawLine)); [reflexivity|].
  destruct (truthy (trim (inline rawLine))); reflexivity.
Qed.

Lemma isWhiteSpace_not_markup (c : N) :
  isWhiteSpace c = true -> isMarkup c = false.
Proof.
  intros H. unfold isMarkup.
  destruct (N.eqb_spec c 42) as [->|_]; [discriminate|].
  destruct (N.eqb_spec c 95) as [->|_]; [discriminate|].
  destruct (N.eqb_spec c 96) as [->|_]; [discriminate|]. reflexivity.
Qed.

Lemma blank_plain (s : JsString) :
  forallb isWhiteSpace s = true -> plain s = true.
Proof.
  unfold plain. induction s as [|c s IH]; simpl; [reflexivity|].
  intros H. apply andb_prop in H. destruct H as [Hc Hs].
  rewrite (isWhiteSpace_not_markup c Hc), (IH Hs). reflexivity.
Qed.

Lemma dropWhile_all (p : N -> bool) (s : JsString) :
  forallb p s = true -> dropWhile p s = [].
Proof.
  induction s as [|c s IH]; simpl; [reflexivity|].
  intros H. apply andb_prop in H. destruct H as [Hc Hs].
  rewrite Hc. exact (IH Hs).
Qed.

Lemma classify_blank (line : JsString) :
  forallb isWhiteSpace line = true -> classify line = Blank.
Proof.
  intros H. unfold classify. cbv zeta.
  rewrite (inline_plain line (blank_plain line H)).
  unfold matchOl, matchUl. cbv zeta.
  rewrite (dropWhile_all isWhiteSpace line H). simpl.
  apply trim_nil_iff in H. rewrite H. reflexivity.
Qed.

Lemma foldl_step_blank (lines : list JsString) :
  Forall (fun line => forallb isWhiteSpace line = true) lines ->
  foldl step start lines = start.
Proof.
  induction 1 as [|line lines Hline _ IH]; [reflexivity|].
  cbn [foldl]. rewrite step_classify, (classify_blank line Hline).
  exact IH.
Qed.

(** X12. A text of white space only (empty, blanks, empty lines) renders
    to the empty string: no empty paragraph is produced. *)
Theorem renderMarkdown_blank (text : JsString) :
  forallb isWhiteSpace text = true -> renderMarkdown text = [].
Proof.
  intros H. unfold renderMarkdown.
  destruct (truthy text); [|reflexivity].
  unfold renderLines.
  rewrite (foldl_step_blank _ (splitLines_whitespace text H)). reflexivity.
Qed.

Lemma renderMarkdown_blank_witness :
  renderMarkdown [32; 10; 9; 10; 10]%N = [].
Proof. apply renderMarkdown_blank. reflexivity. Defined.

(** *** Paragraphs *)

Lemma text_nonempty (rawLine line : JsString) :
  classify rawLine = Text line -> truthy line = true.
Proof.
  unfold classify. cbv zeta.
  destruct (matchOl (inline rawLine)); [discriminate|].
  destruct (matchUl (inline rawLine)); [discriminate|].
  destruct (truthy (trim (inline rawLine))) eqn:E; [|discriminate].
  intros [= <-]. destruct (inline rawLine); [discriminate E | reflexivity].
Qed.

(** The loop over text lines, a paragraph being under way. *)
Lemma foldl_step_texts (lines texts : list JsString) (h buffer : JsString) :
  Forall2 (fun rawLine line => classify rawLine = Text line) lines texts ->
  truthy buffer = true ->
  foldl step {| html := h; listType := None; paraBuffer := buffer |} lines
  = {| html := h; listType := None;
       paraBuffer := buffer ++ concat (map (fun l => br ++ l) texts) |}.
Proof.
  intros Hall. revert buffer.
  induction Hall as [|rawLine line lines texts Hline _ IH]; intros buffer Hb.
  - simpl. now rewrite app_nil_r.
  - cbn [foldl]. rewrite step_classify, Hline. cbn [flushList listType html
      paraBuffer]. rewrite Hb.
    rewrite IH.
    + cbn [map concat]. now rewrite <- !app_assoc.
    + destruct buffer; [discriminate | reflexivity].
Qed.

(** X13. Consecutive lines of text (not blank, not list lines) make one
    paragraph: the lines, with their inline markup replaced, joined by
    [<br/>] inside a single [<p class="my-2">]. *)
Theorem renderLines_paragraph (lines texts : list JsString) :
  lines <> [] ->
  Forall2 (fun rawLine line => classify rawLine = Text line) lines texts ->
  renderLines lines = pOpen ++ joinBr texts ++ pClose.
Proof.
  intros Hne Hall.
  destruct Hall as [|rawLine line lines texts Hline Hall]; [contradiction|].
  unfold renderLines. cbn [foldl].
  rewrite step_classify, Hline. unfold start.
  cbn [flushList listType html paraBuffer truthy app].
  pose proof (text_nonempty rawLine line Hline) as Hb.
  rewrite (foldl_step_texts lines texts [] line Hall Hb).
  unfold flushPara. cbn [paraBuffer html listType].
  replace (truthy (line ++ concat (map (fun l => br ++ l) texts))) with true
    by (destruct line; [discriminate | reflexivity]).
  reflexivity.
Qed.

Lemma splitLines_no_linefeed (s : JsString) :
  forallb (fun c => negb (c =? 10)%N) s = true -> App.splitLines s = [s].
Proof.
  induction s as [|c s IH]; simpl; [reflexivity|].
  intros H. apply andb_prop in H. destruct H as [Hc Hs].
  apply negb_true_iff in Hc. rewrite Hc, (IH Hs). reflexivity.
Qed.

(** X14. A single line without [*], [_] or backtick that is neither blank
    nor a list line is embedded in its paragraph exactly as it is: nothing
    of it is escaped, so markup it contains reaches the page as markup. *)
Theorem renderMarkdown_verbatim (text : JsString) :
  plain text = true ->
  forallb (fun c => negb (c =? 10)%N) text = true ->
  trim text <> [] ->
  matchOl text = None ->
  matchUl text = None ->
  renderMarkdown text = pOpen ++ text ++ pClose.
Proof.
  intros Hplain Hlf Htrim Hol Hul.
  assert (Hclass : classify text = Text text).
  { unfold classify. cbv zeta. rewrite (inline_plain text Hplain), Hol, Hul.
    destruct (trim text); [contradiction | reflexivity]. }
  assert (Htruthy : truthy text = true).
  { destruct text; [contradiction Htrim; reflexivity | reflexivity]. }
  unfold renderMarkdown.
  rewrite Htruthy, (splitLines_no_linefeed _ Hlf).
  rewrite (renderLines_paragraph [text] [text]).
  - unfold joinBr. simpl. now rewrite app_nil_r.
  - discriminate.
  - constructor; [exact Hclass | constructor].
Qed.

Lemma renderLines_paragraph_witness :
  renderLines [[97]; [98; 33]]%N
  = pOpen ++ [97]%N ++ br ++ [98; 33]%N ++ pClose.
Proof.
  rewrite (renderLines_paragraph [[97]; [98; 33]]%N [[97]; [98; 33]]%N).
  - reflexivity.
  - discriminate.
  - repeat constructor.
Defined.

(** "<b>x</b>" comes out inside the paragraph as it went in. *)
Lemma renderMarkdown_verbatim_witness :
  renderMarkdown [60; 98; 62; 120; 60; 47; 98; 62]%N
  = pOpen ++ [60; 98; 62; 120; 60; 47; 98; 62]%N ++ pClose.
Proof.
  apply renderMarkdown_verbatim; try reflexivity. discriminate.
Defined.

(** *** Lists *)

Lemma listLine_open (t : ListType) (item h : JsString) :
  listLine t item {| html := h; listType := Some t; paraBuffer := [] |}
  = {| html := h ++ liOpen ++ item ++ liClose; listType := Some t;
       paraBuffer := [] |}.
Proof. unfold listLine, flushPara. simpl. destruct t; reflexivity. Qed.

(** The loop over list lines of one type, that list being open. *)
Lemma foldl_step_items (t : ListType) (lines items : list JsString)
    (h : JsString) :
  Forall2 (fun rawLine item => classify rawLine = Item t item) lines items ->
  foldl step {| html := h; listType := Some t; paraBuffer := [] |} lines
  = {| html := h ++ listItems items; listType := Some t; paraBuffer := [] |}.
Proof.
  intros Hall. revert h.
  induction Hall as [|rawLine item lines items Hline _ IH]; intros h.
  - unfold listItems. simpl. now rewrite app_nil_r.
  - cbn [foldl]. rewrite step_classify, Hline, listLine_open, IH.
    unfold listItems. cbn [map concat]. now rewrite <- !app_assoc.
Qed.

(** X15. Consecutive list lines of one type (numbered, or bulleted) make
    one list: a single opening tag, one [<li>] per line holding what
    follows the marker, in the order of the lines, and the closing tag.
    The numbers typed on numbered lines are not kept. *)
Theorem renderLines_list (t : ListType) (lines items : list JsString) :
  lines <> [] ->
  Forall2 (fun rawLine item => classify rawLine = Item t item) lines items ->
  renderLines lines = openTag t ++ listItems items ++ closeTag t.
Proof.
  intros Hne Hall.
  destruct Hall as [|rawLine item lines items Hline Hall]; [contradiction|].
  unfold renderLines. cbn [foldl]. rewrite step_classify, Hline.
  assert (Hfirst : listLine t item start
                   = {| html := openTag t ++ liOpen ++ item ++ liClose;
                        listType := Some t; paraBuffer := [] |})
    by reflexivity.
  rewrite Hfirst, (foldl_step_items t lines items _ Hall).
  unfold flushPara, flushList, listItems. cbn [paraBuffer truthy listType html
    map concat].
  now rewrite <- !app_assoc.
Qed.

(** "3. a" and "7. b": one ordered list of "a" and "b". *)
Lemma renderLines_list_witness :
  renderLines [[51; 46; 32; 97]; [55; 46; 32; 98]]%N
  = olOpen ++ (liOpen ++ [97]%N ++ liClose)
    ++ (liOpen ++ [98]%N ++ liClose) ++ olClose.
Proof.
  rewrite (renderLines_list ol [[51; 46; 32; 97]; [55; 46; 32; 98]]%N
             [[97]; [98]]%N).
  - reflexivity.
  - discriminate.
  - repeat constructor.
Defined.

(** *** Bold *)

Lemma lazyUntil_stars (x rest : JsString) :
  plain x = true ->
  forallb (fun c => negb (isLineTerminator c)) x = true ->
  lazyUntil stars (x ++ stars ++ rest) = Some (x, length x + 2).
Proof.
  induction x as [|c x IH]; intros Hplain Hlt.
  - reflexivity.
  - apply plain_cons in Hplain. destruct Hplain as [Hc Hplain].
    apply isMarkup_false in Hc. destruct Hc as [H42 _].
    simpl in Hlt. apply andb_prop in Hlt. destruct Hlt as [Hc Hlt].
    apply negb_true_iff in Hc.
    change ((c :: x) ++ stars ++ rest) with (c :: (x ++ stars ++ rest)).
    cbn [lazyUntil]. change stars with [42; 42]%N at 1. cbn [startsWith].
    destruct (N.eqb_spec 42 c); [congruence|]. cbn [andb].
    rewrite Hc, (IH Hplain Hlt). reflexivity.
Qed.

Lemma replaceFrom_skip (matchAt : JsString -> option (JsString * nat))
    (wrap : JsString -> JsString) (skip : nat) (s : JsString) :
  length s <= skip -> replaceFrom matchAt wrap skip s = [].
Proof.
  revert skip. induction s as [|c s IH]; intros skip Hle; [reflexivity|].
  simpl in Hle. destruct skip as [|k]; [lia|].
  cbn [replaceFrom]. apply IH. lia.
Qed.

Lemma plain_app (a b : JsString) :
  plain (a ++ b) = plain a && plain b.
Proof. unfold plain. apply forallb_app. Qed.

Lemma matchStrong_head (c : N) (s : JsString) :
  isMarkup c = false -> matchStrong (c :: s) = None.
Proof.
  intros Hc. apply isMarkup_false in Hc. destruct Hc as [H42 [H95 _]].
  unfold matchStrong, delimited.
  change stars with [42; 42]%N. change underscores with [95; 95]%N.
  cbn [startsWith].
  destruct (N.eqb_spec 42 c); [congruence|].
  destruct (N.eqb_spec 95 c); [congruence|]. reflexivity.
Qed.

(** A global replace passes over a prefix in which nothing can match. *)
Lemma replaceFrom_plain_prefix
    (matchAt : JsString -> option (JsString * nat))
    (wrap : JsString -> JsString) (a rest : JsString) :
  (forall c s, isMarkup c = false -> matchAt (c :: s) = None) ->
  plain a = true ->
  replaceFrom matchAt wrap 0 (a ++ rest)
  = a ++ replaceFrom matchAt wrap 0 rest.
Proof.
  intros Hnone. induction a as [|c a IH]; intros Ha; [reflexivity|].
  apply plain_cons in Ha. destruct Ha as [Hc Ha].
  change ((c :: a) ++ rest) with (c :: (a ++ rest)).
  cbn [replaceFrom]. rewrite (Hnone c _ Hc), (IH Ha). reflexivity.
Qed.

(** The code units of a match are passed over, and the search goes on
    behind them. *)
Lemma replaceFrom_skip_app (matchAt : JsString -> option (JsString * nat))
    (wrap : JsString -> JsString) (s rest : JsString) :
  replaceFrom matchAt wrap (length s) (s ++ rest)
  = replaceFrom matchAt wrap 0 rest.
Proof.
  induction s as [|c s IH]; [destruct rest; reflexivity|].
  change ((c :: s) ++ rest) with (c :: (s ++ rest)).
  cbn [length replaceFrom]. exact IH.
Qed.

(** X16. In a line [pre**x**post] where [pre], [x] and [post] hold no
    [*], [_] or backtick and [x] no line terminator, the text between the
    two pairs of stars becomes [<strong>]: the stars are dropped, and
    [pre], [x] and [post] are kept as they are. *)
Theorem inline_bold (pre x post : JsString) :
  plain pre = true ->
  plain x = true ->
  plain post = true ->
  forallb (fun c => negb (isLineTerminator c)) x = true ->
  inline (pre ++ stars ++ x ++ stars ++ post)
  = pre ++ strongOpen ++ x ++ strongClose ++ post.
Proof.
  intros Hpre Hplain Hpost Hlt.
  assert (Hstrong :
    replaceAll matchStrong (fun run => strongOpen ++ run ++ strongClose)
      (pre ++ stars ++ x ++ stars ++ post)
    = pre ++ strongOpen ++ x ++ strongClose ++ post).
  { unfold replaceAll.
    rewrite (replaceFrom_plain_prefix matchStrong _ pre _
               matchStrong_head Hpre).
    f_equal.
    assert (Hm : matchStrong (stars ++ x ++ stars ++ post)
                 = Some (x, 2 + (length x + 2))).
    { unfold matchStrong, delimited.
      rewrite startsWith_app, drop_app_length.
      rewrite (lazyUntil_stars x post Hplain Hlt). reflexivity. }
    change (stars ++ x ++ stars ++ post)
      with (42%N :: 42%N :: (x ++ stars ++ post)) at 1.
    cbn [replaceFrom].
    change (42%N :: 42%N :: (x ++ stars ++ post))
      with (stars ++ x ++ stars ++ post).
    rewrite Hm. cbn [pred Nat.add].
    rewrite (app_assoc x stars post).
    replace (length x + 2) with (length (x ++ stars))
      by (rewrite length_app; reflexivity).
    rewrite replaceFrom_skip_app.
    rewrite (replaceFrom_plain matchStrong _ post matchStrong_plain Hpost).
    rewrite <- !app_assoc. reflexivity. }
  unfold inline. rewrite Hstrong.
  assert (Hout : plain (pre ++ strongOpen ++ x ++ strongClose ++ post) = true).
  { rewrite !plain_app, Hpre, Hplain, Hpost. reflexivity. }
  unfold replaceAll.
  rewrite (replaceFrom_plain matchEm _ _ matchEm_plain Hout).
  apply (replaceFrom_plain matchCode _ _ matchCode_plain Hout).
Qed.

(** "say **hi** now" *)
Lemma inline_bold_witness :
  inline ([115; 97; 121; 32] ++ stars ++ [104; 105] ++ stars
          ++ [32; 110; 111; 119])%N
  = ([115; 97; 121; 32] ++ strongOpen ++ [104; 105] ++ strongClose
     ++ [32; 110; 111; 119])%N.
Proof.
  apply (inline_bold [115; 97; 121; 32]%N [104; 105]%N [32; 110; 111; 119]%N);
    reflexivity.
Defined.

(** *** Blocks *)

Lemma flushPara_prepend (h : JsString) (r : Renderer) :
  flushPara (prepend h r) = prepend h (flushPara r).
Proof.
  destruct r as [hr l b]. unfold flushPara, prepend. simpl.
  destruct (truthy b); simpl; [|reflexivity].
  now rewrite <- !app_assoc.
Qed.

Lemma flushList_prepend (h : JsString) (r : Renderer) :
  flushList (prepend h r) = prepend h (flushList r).
Proof.
  destruct r as [hr l b]. unfold flushList, prepend. simpl.
  destruct l; simpl; [|reflexivity].
  now rewrite <- !app_assoc.
Qed.

Lemma listLine_prepend (t : ListType) (item h : JsString) (r : Renderer) :
  listLine t item (prepend h r) = prepend h (listLine t item r).
Proof.
  unfold listLine. cbv zeta. rewrite flushPara_prepend.
  set (r1 := flushPara r).
  change (listType (prepend h r1)) with (listType r1).
  destruct (listType r1) as [t'|] eqn:E.
  - destruct (ListType_eqb t' t).
    + unfold prepend. simpl. now rewrite <- !app_assoc.
    + rewrite flushList_prepend. unfold prepend. simpl.
      now rewrite <- !app_assoc.
  - rewrite flushList_prepend. unfold prepend. simpl.
    now rewrite <- !app_assoc.
Qed.

Lemma step_prepend (h : JsString) (r : Renderer) (rawLine : JsString) :
  step (prepend h r) rawLine = prepend h (step r rawLine).
Proof.
  rewrite !step_classify. destruct (classify rawLine) as [t item|line|].
  - apply listLine_prepend.
  - rewrite flushList_prepend. reflexivity.
  - now rewrite flushList_prepend, flushPara_prepend.
Qed.

Lemma foldl_step_prepend (h : JsString) (lines : list JsString)
    (r : Renderer) :
  foldl step (prepend h r) lines = prepend h (foldl step r lines).
Proof.
  revert r. induction lines as [|line lines IH]; intros r; [reflexivity|].
  cbn [foldl]. now rewrite step_prepend, IH.
Qed.

Lemma flushPara_buffer (r : Renderer) : paraBuffer (flushPara r) = [].
Proof.
  unfold flushPara. destruct (paraBuffer r) eqn:E; simpl; [exact E|reflexivity].
Qed.

Lemma step_tidy (r : Renderer) (rawLine : JsString) : tidy (step r rawLine).
Proof.
  rewrite step_classify. unfold tidy. destruct r as [h l b].
  destruct (classify rawLine) as [t item|line|].
  - right. unfold listLine, flushPara, flushList. cbv zeta. simpl.
    destruct b as [|c b]; simpl;
      destruct l as [t'|]; simpl;
      try destruct (ListType_eqb t' t); reflexivity.
  - left. unfold flushList. simpl. destruct l; reflexivity.
  - left. unfold flushPara, flushList. simpl.
    destruct l; simpl; destruct b; reflexivity.
Qed.

Lemma foldl_step_tidy (lines : list JsString) (r : Renderer) :
  tidy r -> tidy (foldl step r lines).
Proof.
  revert r. induction lines as [|line lines IH]; intros r Hr; [exact Hr|].
  cbn [foldl]. apply IH, step_tidy.
Qed.

(** On a tidy renderer a blank line does what the end of the text does. *)
Lemma blank_closes (r : Renderer) :
  tidy r ->
  flushPara (flushList r)
  = prepend (html (flushList (flushPara r))) start.
Proof.
  destruct r as [h l b].
  unfold tidy, flushPara, flushList, prepend, start. simpl.
  intros [->| ->]; simpl.
  - destruct b; simpl; now rewrite app_nil_r.
  - destruct l; simpl; now rewrite app_nil_r.
Qed.

(** X17. A blank line separates blocks that render on their own: the
    output for the lines before it followed by the output for the lines
    after it.  Whatever paragraph or list was under way is closed at the
    blank line, and nothing of it leaks into what follows. *)
Theorem renderLines_blank_splits (before after : list JsString)
    (blank : JsString) :
  forallb isWhiteSpace blank = true ->
  renderLines (before ++ blank :: after)
  = renderLines before ++ renderLines after.
Proof.
  intros Hblank. unfold renderLines.
  rewrite foldl_app. cbn [foldl].
  rewrite step_classify, (classify_blank blank Hblank).
  rewrite blank_closes by (apply foldl_step_tidy; left; reflexivity).
  rewrite foldl_step_prepend, flushPara_prepend, flushList_prepend.
  reflexivity.
Qed.

(** "a", an empty line, "1. b": a paragraph and then a list. *)
Lemma renderLines_blank_splits_witness :
  renderLines [[97]; []; [49; 46; 32; 98]]%N
  = renderLines [[97]%N] ++ renderLines [[49; 46; 32; 98]%N].
Proof.
  apply (renderLines_blank_splits [[97]%N] [[49; 46; 32; 98]%N] []).
  reflexivity.
Defined.

End MarkdownFacts.

(** ** More on the chat form and the source buttons *)

Section ChatFormFacts.
Import Js Types ChatInterface.

(** X18. A message cannot be sent twice by submitting twice: once the form
    has been submitted the input is empty, so the send button is disabled
    and Enter submits nothing, whatever the props are by then, until text
    is entered again. *)
Theorem send_disables_send (p p' : Props) (st : State) :
  enabled p st ClickSend = true ->
  snd (dispatch p ClickSend st) = [SendMessage (query st)]
  /\ sendDisabled p' (fst (dispatch p ClickSend st)) = true
  /\ enabled p' (fst (dispatch p ClickSend st)) ClickSend = false
  /\ enabled p' (fst (dispatch p ClickSend st)) PressEnter = false.
Proof.
  intros Hen. unfold enabled in Hen. apply andb_prop in Hen.
  destruct Hen as [_ Hen]. simpl in Hen. unfold sendDisabled in Hen.
  apply negb_true_iff in Hen. apply orb_false_elim in Hen.
  destruct Hen as [_ Htrim]. apply negb_false_iff in Htrim.
  unfold enabled. simpl. unfold sendDisabled, handleSubmit.
  rewrite Htrim. simpl.
  rewrite !orb_true_r. simpl. rewrite !andb_false_r. auto.
Qed.

Lemma send_disables_send_witness :
  sendDisabled
    {| documentName := []; history := [];
       isQueryLoading := false; exampleQuestions := [] |}
    (fst (dispatch
            {| documentName := []; history := [];
               isQueryLoading := false; exampleQuestions := [] |}
            ClickSend
            {| query := [104; 105]%N; currentSuggestion := [];
               modalContent := None |})) = true.
Proof.
  apply (send_disables_send
           {| documentName := []; history := [];
              isQueryLoading := false; exampleQuestions := [] |}
           {| documentName := []; history := [];
              isQueryLoading := false; exampleQuestions := [] |}
           {| query := [104; 105]%N; currentSuggestion := [];
              modalContent := None |}).
  reflexivity.
Defined.

Lemma button_keys_from (k : nat) (chunks : list GroundingChunk) :
  Forall (fun b => sourceNumber b = key b + 1)
         (buttons (nodesFrom k chunks)).
Proof.
  revert k. induction chunks as [|chunk chunks IH]; intros k.
  - constructor.
  - rewrite nodesFrom_cons. unfold buttons in *. simpl.
    destruct (displayableText chunk) as [t|] eqn:E.
    + rewrite (renderChunk_displayable _ _ _ E). simpl.
      constructor; [reflexivity | apply IH].
    + rewrite (renderChunk_not_displayable _ _ E). simpl. apply IH.
Qed.

Lemma sorted_numbers_NoDup_keys (bs : list SourceButton) :
  Forall (fun b => sourceNumber b = key b + 1) bs ->
  StronglySorted lt (sourceNumber <$> bs) ->
  NoDup (key <$> bs).
Proof.
  induction bs as [|b bs IH]; intros Hk Hs; simpl.
  - constructor.
  - inversion Hk as [|? ? Hb Hbs]; subst.
    simpl in Hs. inversion Hs as [|? ? Hs' Hlt]; subst.
    constructor; [|apply IH; assumption].
    intros Hin. apply list_elem_of_fmap in Hin.
    destruct Hin as [b' [Hkey Hin']].
    assert (Hn : sourceNumber b < sourceNumber b').
    { rewrite List.Forall_forall in Hlt. apply Hlt.
      apply in_map. apply list_elem_of_In. exact Hin'. }
    rewrite List.Forall_forall in Hbs.
    assert (Hb' : sourceNumber b' = key b' + 1).
    { apply Hbs. apply list_elem_of_In. exact Hin'. }
    rewrite Hb, Hb', Hkey in Hn. exact (Nat.lt_irrefl _ Hn).
Qed.

Lemma buttons_length (nodes : list Node) :
  length (buttons nodes) <= length nodes.
Proof.
  unfold buttons. induction nodes as [|n nodes IH]; [reflexivity|].
  change (omap nodeButton (n :: nodes))
    with (match nodeButton n with
          | Some b => b :: omap nodeButton nodes
          | None => omap nodeButton nodes
          end).
  destruct (nodeButton n); simpl; lia.
Qed.

(** X19. The source buttons of a message carry pairwise different React
    keys, and there are never more buttons than grounding chunks. *)
Theorem source_button_keys_distinct (chunks : list GroundingChunk) :
  NoDup (key <$> buttons (renderChunks chunks))
  /\ length (buttons (renderChunks chunks)) <= length chunks.
Proof.
  split.
  - rewrite renderChunks_from_zero.
    apply sorted_numbers_NoDup_keys.
    + apply button_keys_from.
    + apply button_numbers_from.
  - rewrite <- (length_imap renderChunk chunks). fold (renderChunks chunks).
    apply buttons_length.
Qed.

End ChatFormFacts.
